(** * Background remover: the Express colour-key engine and the job orchestration

    A shallow embedding of [src/BackgroundRemover.tsx] ([processInstant]) and
    of the two [App] components that drive it (the one with the
    express/deep mode switch, and the single-engine one), followed by the
    properties of the specification that they satisfy or break.

    Numbers.  The pixel pass only ever forms numbers of two shapes: rationals
    (channel values, the corner average, the sliders) and one square root of
    a rational, scaled by rationals and compared with rationals.  Both are
    kept exact: a rational as [Q], and a real [x] of the second shape as the
    rational [x * |x|] (module [Num]); the order of the reals is the order of
    these signed squares.  Rounding errors of binary64, [NaN] and the
    infinities of a slider value are outside the model. *)

From Stdlib Require Import ZArith QArith Qround Qabs Qminmax Lia String Ascii.
From stdpp Require Import base list gmap pretty.
From Stdlib Require Import Reals Qreals Psatz.

Local Open Scope Z_scope.

(** ** Exact numbers of the pixel pass *)

Module Num.

(** The real [sign s * sqrt |s|], stored as its signed square [s]. *)
Record root : Type := Root { sq : Q }.

(** A rational [q] seen as a root: [q * |q|] is its signed square. *)
Definition ssq (q : Q) : Q := (q * Qabs q)%Q.
Definition of_Q (q : Q) : root := Root (ssq q).

(** [Math.pow(q, 2)] *)
Definition Math_pow2 (q : Q) : Q := (q * q)%Q.

(** [Math.sqrt(q)] on a sum of squares (never negative). *)
Definition Math_sqrt (q : Q) : root := Root q.

(** [x / q] and [x * q] for a root [x] and a rational [q]. *)
Definition div (x : root) (q : Q) : root := Root (sq x / ssq q)%Q.
Definition mul (x : root) (q : Q) : root := Root (sq x * ssq q)%Q.

(** [x < y] *)
Definition ltb (x y : root) : bool :=
  match (sq x ?= sq y)%Q with Lt => true | _ => false end.

(** [Math.min(x, y)] and [Math.max(x, y)] *)
Definition Math_min (x y : root) : root := if ltb y x then y else x.
Definition Math_max (x y : root) : root := if ltb x y then y else x.

(** [a || b] on numbers: [a] unless it is zero. *)
Definition or_else (a b : Q) : Q := if Qeq_bool a 0 then b else a.

(** The conversion of a store into a [Uint8ClampedArray] (ToUint8Clamp):
    clamp to [0, 255], then round to the nearest integer, a tie going to
    the even neighbour.  With [f = floor x], the comparison of [x] with
    [f + 1/2] is the comparison of [x^2] with [(2f+1)^2 / 4]. *)
Definition ToUint8Clamp (x : root) : Z :=
  let s := sq x in
  if Qle_bool s 0 then 0
  else if Qle_bool (255 * 255) s then 255
  else
    let f := Z.sqrt (Qfloor s) in
    match (s ?= ((2 * f + 1) * (2 * f + 1)) # 4)%Q with
    | Lt => f
    | Gt => f + 1
    | Eq => if Z.even f then f else f + 1
    end.

(** The real whose signed square is [r]. *)
Definition sroot (r : R) : R :=
  if Rle_dec 0 r then sqrt r else (- sqrt (- r))%R.

(** The real number a root stands for, and the order of these reals. *)
Definition toR (x : root) : R := sroot (Q2R (sq x)).

Definition lt (x y : root) : Prop := (toR x < toR y)%R.
Definition le (x y : root) : Prop := (toR x <= toR y)%R.

End Num.

(** ** The Express engine: [processInstant] *)

Module Express.
Import Num.

(** [ImageData]: the RGBA bytes of a [width] x [height] canvas, row by
    row, four entries per pixel. *)
Record ImageData : Type := mkImageData {
  width : nat;
  height : nat;
  data : list Z
}.

(** What [ctx.getImageData(0, 0, w, h)] hands out: [w * h * 4] entries,
    each a byte. *)
Definition byte (z : Z) : Prop := 0 <= z <= 255.
Definition well_formed (img : ImageData) : Prop :=
  length (data img) = (width img * height img * 4)%nat /\
  Forall byte (data img).

(** The pixel number [p] of an array, as [(r, g, b, a)]; the pixel at
    [(x, y)] has number [y * w + x]. *)
Definition pixel (d : list Z) (p : nat) : option (Z * Z * Z * Z) :=
  match d !! (p * 4)%nat, d !! (p * 4 + 1)%nat,
        d !! (p * 4 + 2)%nat, d !! (p * 4 + 3)%nat with
  | Some r, Some g, Some b, Some a => Some (r, g, b, a)
  | _, _, _, _ => None
  end.

(** The background estimate; [None] stands for a [NaN] channel (a corner
    read outside the array gives [undefined]). *)
Definition estimate : Type := option (Q * Q * Q).

(** The four sampled positions, [[x, y]] each. *)
Definition corners (w h : nat) : list (nat * nat) :=
  [ (0, 0); (w - 1, 0); (0, h - 1); (w - 1, h - 1) ]%nat.

(** One step of [corners.forEach]: add the pixel at [(x, y)] to the sums. *)
Definition add_corner (w : nat) (d : list Z) (sums : option (Z * Z * Z))
    (c : nat * nat) : option (Z * Z * Z) :=
  let '(x, y) := c in
  let idx := ((y * w + x) * 4)%nat in
  match sums, d !! idx, d !! (idx + 1)%nat, d !! (idx + 2)%nat with
  | Some (rSum, gSum, bSum), Some r, Some g, Some b =>
      Some (rSum + r, gSum + g, bSum + b)
  | _, _, _, _ => None
  end.

Definition background (w h : nat) (d : list Z) : estimate :=
  match fold_left (add_corner w d) (corners w h) (Some (0, 0, 0)) with
  | Some (rSum, gSum, bSum) =>
      Some (inject_Z rSum / 4, inject_Z gSum / 4, inject_Z bSum / 4)%Q
  | None => None
  end.

(** [dist] for a pixel [(r, g, b)]. *)
Definition distance (bg : Q * Q * Q) (r g b : Z) : root :=
  let '(bgR, bgG, bgB) := bg in
  Math_sqrt (Math_pow2 (inject_Z r - bgR) +
             Math_pow2 (inject_Z g - bgG) +
             Math_pow2 (inject_Z b - bgB))%Q.

(** [const alpha = Math.max(0, Math.min(255, (dist / tol) * 255 * (1 / (fth || 1))))] *)
Definition ramp (dist : root) (tol fth : Q) : root :=
  Math_max (of_Q 0)
    (Math_min (of_Q 255)
       (mul (mul (div dist tol) 255) (1 / or_else fth 1)%Q)).

(** The value stored in [data[i + 3]] when [dist < tol]. *)
Definition new_alpha (dist : root) (tol fth : Q) : Z :=
  if ltb dist (of_Q (tol / (3 # 2))%Q) then 0 else ToUint8Clamp (ramp dist tol fth).

(** The loop body at index [i]. A channel read outside the array makes
    [dist] a [NaN], and [NaN < tol] is false. *)
Definition body (bg : estimate) (tol fth : Q) (i : nat) (d : list Z) : list Z :=
  match bg, d !! i, d !! (i + 1)%nat, d !! (i + 2)%nat with
  | Some bg, Some r, Some g, Some b =>
      let dist := distance bg r g b in
      if ltb dist (of_Q tol) then <[(i + 3)%nat := new_alpha dist tol fth]> d
      else d
  | _, _, _, _ => d
  end.

(** [for (let i = 0; i < data.length; i += 4) ...]; [fuel] bounds the
    number of iterations, [length d] of them always suffice. *)
Fixpoint loop (fuel : nat) (bg : estimate) (tol fth : Q) (i : nat)
    (d : list Z) : list Z :=
  match fuel with
  | O => d
  | S fuel' =>
      if (i <? length d)%nat
      then loop fuel' bg tol fth (i + 4)%nat (body bg tol fth i d)
      else d
  end.

(** The pixel pass on the array read from the canvas. *)
Definition threshold (w h : nat) (tol fth : Q) (d : list Z) : list Z :=
  loop (length d) (background w h d) tol fth 0%nat d.

(** The callbacks of the component's props. *)
Inductive callback : Type :=
| onResult (png : ImageData)
| onError (error : string).

(** How a call ends: it returns, or an exception of the canvas escapes. *)
Inductive completion : Type :=
| Returns
| Throws_IndexSizeError.

(** [processInstant(img, tol, fth)]: the callbacks made and the way the call
    ends.  [canvas] and [ctx] say whether [canvasRef.current] and
    [getContext('2d')] are non-null; [img] is the decoded image, which
    [drawImage] puts on the canvas resized to it.  [getImageData] refuses
    a zero width or height with an IndexSizeError. *)
Definition processInstant (canvas ctx : bool) (img : ImageData)
    (tol fth : Q) : list callback * completion :=
  if negb canvas then ([], Returns)
  else if negb ctx then ([], Returns)
  else
    let w := width img in
    let h := height img in
    if ((w =? 0) || (h =? 0))%nat then ([], Throws_IndexSizeError)
    else
      let d := threshold w h tol fth (data img) in
      ([onResult (mkImageData w h d)], Returns).

End Express.


(** ** The words of the specification *)

Module Specified.
Import Num Express.

(** [clamp(lo, hi, x)] *)
Definition clamp (lo hi : Q) (x : root) : root :=
  Math_max (of_Q lo) (Math_min (of_Q hi) x).

(** [clamp(0, 255, (dist / tolerance) * 255 * (1 / divisor))] *)
Definition ramp_over (divisor : Q) (dist : root) (tol : Q) : root :=
  clamp 0 255 (mul (mul (div dist tol) 255) (1 / divisor)%Q).

(** The ramp of the specification divides by [max(feather, 1)]. *)
Definition spec_ramp (dist : root) (tol fth : Q) : root :=
  ramp_over (Qmax fth 1) dist tol.

(** The ramp zone: [tolerance / 1.5 <= dist < tolerance]. *)
Definition ramp_zone (dist : root) (tol : Q) : Prop :=
  le (of_Q (tol / (3 # 2))%Q) dist /\ lt dist (of_Q tol).

(** The sentence on the ramp, at pixel [p] of one run: the alpha stored
    is the specified ramp (as a byte). *)
Definition ramp_alpha_as_specified (img : ImageData) (tol fth : Q) (p : nat)
    : Prop :=
  forall bg r g b a,
    background (width img) (height img) (data img) = Some bg ->
    pixel (data img) p = Some (r, g, b, a) ->
    ramp_zone (distance bg r g b) tol ->
    exists out,
      processInstant true true img tol fth = ([onResult out], Returns) /\
      pixel (data out) p
      = Some (r, g, b, ToUint8Clamp (spec_ramp (distance bg r g b) tol fth)).

(** The sentence on monotonic softening, at pixel [p] of two runs that
    differ in the feather only. *)
Definition softening_as_specified (img : ImageData) (tol f1 f2 : Q) (p : nat)
    : Prop :=
  forall bg r g b a out1 out2 a1 a2,
    (f1 < f2)%Q ->
    background (width img) (height img) (data img) = Some bg ->
    pixel (data img) p = Some (r, g, b, a) ->
    ramp_zone (distance bg r g b) tol ->
    processInstant true true img tol f1 = ([onResult out1], Returns) ->
    processInstant true true img tol f2 = ([onResult out2], Returns) ->
    pixel (data out1) p = Some (r, g, b, a1) ->
    pixel (data out2) p = Some (r, g, b, a2) ->
    a1 <= a2.

(** The sentence that alpha is only ever lowered, at pixel [p] of one run. *)
Definition alpha_lowered_as_specified (img : ImageData) (tol fth : Q) (p : nat)
    : Prop :=
  forall r g b a out r' g' b' a',
    pixel (data img) p = Some (r, g, b, a) ->
    processInstant true true img tol fth = ([onResult out], Returns) ->
    pixel (data out) p = Some (r', g', b', a') ->
    a' <= a.

(** The sentence on [InvalidImage], for one run: a buffer without width or
    height, or of the wrong length, is reported as an error and gives no
    masked output. *)
Definition InvalidImage_as_specified (img : ImageData) (tol fth : Q) : Prop :=
  (width img = 0 \/ height img = 0 \/
   length (data img) <> width img * height img * 4)%nat ->
  (exists error, In (onError error) (fst (processInstant true true img tol fth))) /\
  (forall out, ~ In (onResult out) (fst (processInstant true true img tol fth))).

(** A strip of three pixels: black opaque ends (the four sampled corners)
    around the pixel [(24, 0, 0)] of alpha [a]. *)
Definition strip (a : Z) : ImageData :=
  mkImageData 3 1 [0; 0; 0; 255; 24; 0; 0; a; 0; 0; 0; 255].

(** The 2 x 2 image of the specification's first scenario. *)
Definition grey2x2 : ImageData :=
  mkImageData 2 2 [200; 200; 200; 255; 200; 200; 200; 255;
                   200; 200; 200; 255; 200; 200; 200; 255].

(** The 4 x 4 image of its second scenario: white, but for one black
    pixel off the border (pixel number 5). *)
Definition white4x4 : ImageData :=
  mkImageData 4 4
    (concat (replicate 5 [255; 255; 255; 255]) ++ [0; 0; 0; 255] ++
     concat (replicate 10 [255; 255; 255; 255])).

(** An image without pixels. *)
Definition empty_image : ImageData := mkImageData 0 0 [].

End Specified.

(** ** The page around the components: files and object URLs *)

Module Browser.

(** A [File]: name, MIME type and size in bytes. *)
Record File : Type := mkFile {
  name : string;
  type : string;
  size : Z
}.

(** The URL strings the components hold: [''], an object URL made by
    [URL.createObjectURL] (a handle on a blob), or the data URL of a canvas. *)
Inductive url : Type :=
| empty_url
| blob_url (handle : nat)
| data_url (png : Express.ImageData).

(** Truthiness of a URL string: all but ['']. *)
Definition truthy (u : url) : bool :=
  match u with empty_url => false | _ => true end.

(** The object URLs of the page: the next handle, the handles alive, and
    every call of [URL.revokeObjectURL] so far. *)
Record URLStore : Type := mkURLStore {
  next : nat;
  live : gset nat;
  revoked : list url
}.

Definition no_urls : URLStore := mkURLStore 0 ∅ [].

(** [URL.createObjectURL(blob)]: a fresh handle, alive until revoked. *)
Definition createObjectURL (st : URLStore) : url * URLStore :=
  (blob_url (next st),
   mkURLStore (S (next st)) ({[next st]} ∪ live st) (revoked st)).

(** [URL.revokeObjectURL(u)]: releases the handle of an object URL; any
    other string is ignored. *)
Definition revokeObjectURL (u : url) (st : URLStore) : URLStore :=
  mkURLStore (next st)
    (match u with blob_url h => live st ∖ {[h]} | _ => live st end)
    (revoked st ++ [u]).

(** How often the handle of [u] was revoked. *)
Definition same_handle (u v : url) : bool :=
  match u, v with
  | blob_url h, blob_url k => Nat.eqb h k
  | _, _ => false
  end.

Definition times_revoked (u : url) (st : URLStore) : nat :=
  length (List.filter (same_handle u) (revoked st)).

(** [s.split('.')[0]]: the characters before the first dot. *)
Fixpoint split_dot_0 (s : string) : string :=
  match s with
  | EmptyString => EmptyString
  | String c rest =>
      if Ascii.eqb c "."%char then EmptyString else String c (split_dot_0 rest)
  end.

(** [file.name.split('.')[0] + '_transparent.png'] *)
Definition transparent_name (f : File) : string :=
  String.append (split_dot_0 (name f)) "_transparent.png".

(** [key.includes(sub)] *)
Fixpoint includes (sub key : string) : bool :=
  String.prefix sub key ||
  match key with
  | EmptyString => false
  | String _ rest => includes sub rest
  end.

(** [Math.round((current / total) * 100)]: the nearest integer, a tie going
    up. *)
Definition percentage (current total : Q) : Z :=
  Qfloor (current / total * 100 + (1 # 2))%Q.

(** What [handleFileChange] and [processFile] keep across the [await] of
    the Deep engine: the file and the object URL made for it. *)
Record Pending : Type := mkPending {
  pending_file : File;
  pending_originalUrl : url
}.

Record ProcessedImage : Type := mkProcessedImage {
  originalUrl : url;
  resultUrl : url;
  result_name : string
}.

End Browser.

(** ** The single-engine [App]: [processFile] and [reset] *)

Module AppSingle.
Import Browser.

(** The state of the component, the object URLs of the page, and the files
    handed to [removeBackground] so far. *)
Record App : Type := mkApp {
  isProcessing : bool;
  progress : Z;
  status : string;
  error : option string;
  result : option ProcessedImage;
  urls : URLStore;
  engine_calls : list File
}.

Definition initial : App := mkApp false 0 "" None None no_urls [].

Definition setError (e : option string) (s : App) : App :=
  mkApp (isProcessing s) (progress s) (status s) e (result s) (urls s)
    (engine_calls s).

(** [processFile(file)] up to the [await]: the checks, then the start of
    the Deep engine.  [None]: the function returned before the engine. *)
Definition processFile (file : File) (s : App) : App * option Pending :=
  if negb (String.prefix "image/" (type file)) then
    (setError (Some "Please upload a valid image file (PNG, JPG, or WebP).") s,
     None)
  else if 15 * 1024 * 1024 <? size file then
    (setError (Some "File is too large. Please use an image smaller than 15MB.") s,
     None)
  else
    let '(originalUrl, urls') := createObjectURL (urls s) in
    (mkApp true 0 "Initializing AI engine..." None (result s) urls'
       (engine_calls s ++ [file]),
     Some (mkPending file originalUrl)).

(** The [progress] callback handed to the engine. *)
Definition on_progress (key : string) (current total : Q) (s : App) : App :=
  let pct := percentage current total in
  mkApp (isProcessing s) pct
    (if String.eqb key "compute" then "Analyzing image layers..."
     else if includes "fetch" key then "Downloading AI models..."
     else String.append "Processing (" (String.append (pretty pct) "%)..."))
    (error s) (result s) (urls s) (engine_calls s).

(** After the [await], when the engine resolves with a blob. *)
Definition processFile_resolved (p : Pending) (s : App) : App :=
  let '(resultUrl, urls') := createObjectURL (urls s) in
  mkApp false (progress s) "Success!" (error s)
    (Some (mkProcessedImage (pending_originalUrl p) resultUrl
             (transparent_name (pending_file p))))
    urls' (engine_calls s).

(** After the [await], when the engine rejects: the [catch] block. *)
Definition processFile_rejected (p : Pending) (s : App) : App :=
  mkApp false (progress s) (status s)
    (Some "Processing failed. This can happen if the browser runs out of memory or the image is unsupported.")
    (result s) (urls s) (engine_calls s).

Definition reset (s : App) : App :=
  let urls' :=
    match result s with
    | Some r => revokeObjectURL (resultUrl r) (revokeObjectURL (originalUrl r) (urls s))
    | None => urls s
    end in
  mkApp (isProcessing s) 0 "" None None urls' (engine_calls s).

End AppSingle.

(** ** The [App] with the two modes: [handleFileChange], [processFileDeep]
    and [reset] *)

Module AppModes.
Import Browser.

Inductive RemovalMode : Type := express | deep.

Record App : Type := mkApp {
  removalMode : RemovalMode;
  isProcessing : bool;
  progress : Z;
  status : string;
  error : option string;
  selectedFile : option File;
  result : option ProcessedImage;
  urls : URLStore;
  engine_calls : list File
}.

Definition initial (mode : RemovalMode) : App :=
  mkApp mode false 0 "" None None None no_urls [].

(** [processFileDeep(file)] up to the [await]. *)
Definition processFileDeep (file : File) (s : App) : App * Pending :=
  let '(originalUrl, urls') := createObjectURL (urls s) in
  (mkApp (removalMode s) true 0 "Initializing Deep AI engine..." None
     (selectedFile s) (result s) urls' (engine_calls s ++ [file]),
   mkPending file originalUrl).

Definition on_progress (key : string) (current total : Q) (s : App) : App :=
  let pct := percentage current total in
  mkApp (removalMode s) (isProcessing s) pct
    (if String.eqb key "compute" then "Analyzing complex layers..."
     else if includes "fetch" key then "Downloading Deep AI models..."
     else String.append "Processing (" (String.append (pretty pct) "%)..."))
    (error s) (selectedFile s) (result s) (urls s) (engine_calls s).

Definition processFileDeep_resolved (p : Pending) (s : App) : App :=
  let '(resultUrl, urls') := createObjectURL (urls s) in
  mkApp (removalMode s) false (progress s) (status s) (error s) (selectedFile s)
    (Some (mkProcessedImage (pending_originalUrl p) resultUrl
             (transparent_name (pending_file p))))
    urls' (engine_calls s).

Definition processFileDeep_rejected (p : Pending) (s : App) : App :=
  mkApp (removalMode s) false (progress s) (status s)
    (Some "Deep AI failed. The model may be too heavy for your browser.")
    (selectedFile s) (result s) (urls s) (engine_calls s).

(** [handleFileChange] and [onDrop], on the file picked or dropped ([None]:
    no file in the event). *)
Definition handleFileChange (file : option File) (s : App) : App * option Pending :=
  match file with
  | None => (s, None)
  | Some file =>
      let s1 :=
        mkApp (removalMode s) (isProcessing s) (progress s) (status s) (error s)
          (Some file) (result s) (urls s) (engine_calls s) in
      match removalMode s with
      | deep => let '(s2, p) := processFileDeep file s1 in (s2, Some p)
      | express =>
          let '(originalUrl, urls') := createObjectURL (urls s1) in
          (mkApp (removalMode s1) (isProcessing s1) (progress s1) (status s1)
             (error s1) (selectedFile s1)
             (Some (mkProcessedImage originalUrl empty_url (transparent_name file)))
             urls' (engine_calls s1),
           None)
      end
  end.

(** The [onResult] prop handed to [BackgroundRemover]:
    [(url) => setResult({...result, resultUrl: url})]. *)
Definition onResult (png : Express.ImageData) (s : App) : App :=
  match result s with
  | Some r =>
      mkApp (removalMode s) (isProcessing s) (progress s) (status s) (error s)
        (selectedFile s)
        (Some (mkProcessedImage (originalUrl r) (data_url png) (result_name r)))
        (urls s) (engine_calls s)
  | None => s
  end.

Definition reset (s : App) : App :=
  let urls' :=
    match result s with
    | Some r =>
        let u := revokeObjectURL (originalUrl r) (urls s) in
        if truthy (resultUrl r) then revokeObjectURL (resultUrl r) u else u
    | None => urls s
    end in
  mkApp (removalMode s) (isProcessing s) 0 "" None None None urls'
    (engine_calls s).

End AppModes.

(** ** The words of the specification on jobs *)

Module SpecifiedJob.
Import Browser.

(** The basename of the specification: the full name with only its final
    extension removed (cut at the last dot, if there is one). *)
Fixpoint has_dot (s : string) : bool :=
  match s with
  | EmptyString => false
  | String c rest => Ascii.eqb c "."%char || has_dot rest
  end.

Fixpoint basename (s : string) : string :=
  match s with
  | EmptyString => EmptyString
  | String c rest =>
      if Ascii.eqb c "."%char && negb (has_dot rest) then EmptyString
      else String c (basename rest)
  end.

Fixpoint count_dots (s : string) : nat :=
  match s with
  | EmptyString => 0
  | String c rest => (if Ascii.eqb c "."%char then 1 else 0) + count_dots rest
  end.

(** [<original-basename>_transparent.png] *)
Definition specified_name (f : File) : string :=
  String.append (basename (name f)) "_transparent.png".

(** The sentence on the output name, for one file handled by the
    single-engine [App] from its initial state. *)
Definition output_name_as_specified (f : File) : Prop :=
  forall s1 p,
    AppSingle.processFile f AppSingle.initial = (s1, Some p) ->
    exists r,
      AppSingle.result (AppSingle.processFile_resolved p s1) = Some r /\
      result_name r = specified_name f.

(** A file the specification wants refused: empty, or not an image. *)
Definition invalid_input (f : File) : Prop :=
  size f = 0 \/ String.prefix "image/" (type f) = false.

(** The sentence on [InvalidInput], for one file submitted to the
    single-engine [App] in its initial state: an error, no start of a job,
    no engine call, no result, no object URL. *)
Definition submit_refused_as_specified (f : File) : Prop :=
  invalid_input f ->
  exists s',
    AppSingle.processFile f AppSingle.initial = (s', None) /\
    AppSingle.error s' <> None /\
    AppSingle.isProcessing s' = false /\
    AppSingle.result s' = None /\
    AppSingle.engine_calls s' = [] /\
    AppSingle.urls s' = no_urls.

(** Sample files. *)
Definition photo : File := mkFile "photo.png" "image/png" 2048.
Definition two_dots : File := mkFile "my.photo.jpg" "image/jpeg" 2048.
Definition empty_png : File := mkFile "empty.png" "image/png" 0.
Definition notes : File := mkFile "notes.txt" "text/plain" 12.

End SpecifiedJob.

(** ** The [BackgroundRemover] component: the sliders and the two effects *)

Module Remover.
Import Num Express.

(** The state of a mounted component: the two sliders, the image kept in
    [originalImageRef], and the calls of its props so far, oldest first. *)
Record State : Type := mkState {
  tolerance : Q;
  feather : Q;
  originalImageRef : option ImageData;
  reported : list callback
}.

(** [useState(30)], [useState(2)], [useRef(null)]. *)
Definition mounted : State := mkState 30 2 None [].

Section Canvas.
Variables (canvas ctx : bool).

(** [img.onload] of the effect on [[file]].  The effect runs once, after
    the first render ([App] gives a mounted component one file), so the
    [tolerance] and [feather] of its closure are those of that render. *)
Definition img_onload (img : ImageData) (s : State) : State * completion :=
  let '(calls, c) :=
    processInstant canvas ctx img (tolerance mounted) (feather mounted) in
  (mkState (tolerance s) (feather s) (Some img) (reported s ++ calls), c).

(** The effect on [[tolerance, feather]]. *)
Definition adjust (s : State) : State * completion :=
  match originalImageRef s with
  | Some img =>
      let '(calls, c) := processInstant canvas ctx img (tolerance s) (feather s) in
      (mkState (tolerance s) (feather s) (originalImageRef s)
         (reported s ++ calls), c)
  | None => (s, Returns)
  end.

(** The sliders: [setTolerance(parseInt(value))], [setFeather(parseFloat(value))].
    A value equal to the current one changes no state and runs no effect. *)
Definition setTolerance (t : Q) (s : State) : State * completion :=
  if Qeq_bool t (tolerance s) then (s, Returns)
  else adjust (mkState t (feather s) (originalImageRef s) (reported s)).

Definition setFeather (f : Q) (s : State) : State * completion :=
  if Qeq_bool f (feather s) then (s, Returns)
  else adjust (mkState (tolerance s) f (originalImageRef s) (reported s)).

(** What happens to a mounted component. *)
Inductive event : Type :=
| Loaded (img : ImageData)
| TolerancePicked (t : Q)
| FeatherPicked (f : Q).

Definition step (e : event) (s : State) : State * completion :=
  match e with
  | Loaded img => img_onload img s
  | TolerancePicked t => setTolerance t s
  | FeatherPicked f => setFeather f s
  end.

(** A run, followed up to the first exception that escapes. *)
Fixpoint run (evs : list event) (s : State) : State * completion :=
  match evs with
  | [] => (s, Returns)
  | e :: rest =>
      let '(s', c) := step e s in
      match c with
      | Returns => run rest s'
      | Throws_IndexSizeError => (s', c)
      end
  end.

End Canvas.

(** The result on show: the last one reported. *)
Definition shown (s : State) : option callback := last (reported s).

(** The pass over an image as the component reports it. *)
Definition pass (img : ImageData) (tol fth : Q) : callback :=
  onResult (mkImageData (width img) (height img)
              (threshold (width img) (height img) tol fth (data img))).

Definition is_slider (e : event) : Prop :=
  match e with Loaded _ => False | _ => True end.

(** For a set of known images: the image kept is a known one, and so is
    the image of every report. *)
Definition from_known (known : ImageData -> Prop) (s : State) : Prop :=
  (forall img, originalImageRef s = Some img -> known img) /\
  Forall (fun r => exists img t f, known img /\ r = pass img t f) (reported s).

(** The result on show is the pass over the image kept, with the sliders
    as they stand or as they stood at the first render. *)
Definition current_or_initial (s : State) : Prop :=
  forall img,
    originalImageRef s = Some img ->
    (0 < width img)%nat -> (0 < height img)%nat ->
    shown s = Some (pass img (tolerance s) (feather s))
    \/ shown s = Some (pass img 30 2).

End Remover.

(** ** What the two [App]s render and offer for download *)

Module Views.
Import Browser.

(** The three panels of the [App] with the two modes, the error line of
    its drop zone, and the mounting of [BackgroundRemover]. *)
Definition drop_zone (s : AppModes.App) : bool :=
  negb (bool_decide (is_Some (AppModes.selectedFile s)))
  && negb (AppModes.isProcessing s).

Definition progress_panel (s : AppModes.App) : bool := AppModes.isProcessing s.

Definition result_panel (s : AppModes.App) : bool :=
  bool_decide (is_Some (AppModes.result s)) && negb (AppModes.isProcessing s).

(** [error && ...]: a message that is not the empty string. *)
Definition message (e : option string) : bool :=
  match e with
  | Some m => negb (String.eqb m "")
  | None => false
  end.

Definition error_line (s : AppModes.App) : bool :=
  drop_zone s && message (AppModes.error s).

Definition remover_mounted (s : AppModes.App) : bool :=
  result_panel s
  && match AppModes.removalMode s with AppModes.express => true | _ => false end
  && bool_decide (is_Some (AppModes.selectedFile s)).

(** The same for the single-engine [App]. *)
Definition single_drop_zone (s : AppSingle.App) : bool :=
  negb (bool_decide (is_Some (AppSingle.result s)))
  && negb (AppSingle.isProcessing s).

Definition single_progress_panel (s : AppSingle.App) : bool :=
  AppSingle.isProcessing s.

Definition single_result_panel (s : AppSingle.App) : bool :=
  bool_decide (is_Some (AppSingle.result s)).

Definition single_error_line (s : AppSingle.App) : bool :=
  single_drop_zone s && message (AppSingle.error s).

(** [downloadResult]: the link clicked, as its [href] and [download]
    name; [None] when the function returns before making one. *)
Definition downloadResult (s : AppModes.App) : option (url * string) :=
  match AppModes.result s with
  | Some r =>
      if truthy (resultUrl r) then Some (resultUrl r, result_name r) else None
  | None => None
  end.

Definition single_downloadResult (s : AppSingle.App) : option (url * string) :=
  match AppSingle.result s with
  | Some r => Some (resultUrl r, result_name r)
  | None => None
  end.

(** A store of object URLs is in order when every handle alive or revoked
    was handed out before: it is below [next]. *)
Definition store_ok (st : URLStore) : Prop :=
  (forall h, h ∈ live st -> (h < next st)%nat) /\
  (forall h, In (blob_url h) (revoked st) -> (h < next st)%nat).

(** From one store to a later one: no revocation more, no handle less
    alive. *)
Definition keeps_urls (before after : URLStore) : Prop :=
  revoked after = revoked before /\ live before ⊆ live after.

(** The props [App] hands to [BackgroundRemover]: [onResult] and
    [onError={setError}]. *)
Definition on_callback (c : Express.callback) (s : AppModes.App) : AppModes.App :=
  match c with
  | Express.onResult png => AppModes.onResult png s
  | Express.onError e =>
      AppModes.mkApp (AppModes.removalMode s) (AppModes.isProcessing s)
        (AppModes.progress s) (AppModes.status s) (Some e)
        (AppModes.selectedFile s) (AppModes.result s) (AppModes.urls s)
        (AppModes.engine_calls s)
  end.

End Views.

(** ** Facts on the exact numbers *)

Module NumFacts.
Import Num.
Local Open Scope Q_scope.

Lemma ltb_lt (x y : root) : ltb x y = true <-> sq x < sq y.
Proof.
  unfold ltb. rewrite Qlt_alt. destruct (sq x ?= sq y); intuition congruence.
Qed.

Lemma ltb_ge (x y : root) : ltb x y = false <-> sq y <= sq x.
Proof.
  unfold ltb. destruct (Qcompare_spec (sq x) (sq y)) as [H|H|H].
  - split; [intros _; rewrite H; apply Qle_refl | reflexivity].
  - split; [discriminate | intros H'; exfalso; lra].
  - split; [intros _; now apply Qlt_le_weak | reflexivity].
Qed.

Lemma ltb_comp (x x' y y' : root) :
  sq x == sq x' -> sq y == sq y' -> ltb x y = ltb x' y'.
Proof. intros Hx Hy. unfold ltb. now rewrite Hx, Hy. Qed.

Lemma ssq_nonneg (q : Q) : 0 <= q -> ssq q == q * q.
Proof. intros H. unfold ssq. now rewrite (Qabs_pos q H). Qed.

Lemma ssq_nonpos (q : Q) : q <= 0 -> ssq q == - (q * q).
Proof. intros H. unfold ssq. rewrite (Qabs_neg q H). ring. Qed.

Lemma ssq_pos (q : Q) : 0 < q -> 0 < ssq q.
Proof.
  intros H. rewrite ssq_nonneg by now apply Qlt_le_weak.
  now apply Qmult_lt_0_compat.
Qed.

Lemma ssq_le_0 (q : Q) : q <= 0 -> ssq q <= 0.
Proof. intros H. rewrite ssq_nonpos by assumption. nra. Qed.

(** The signed square is strictly increasing. *)
Lemma ssq_lt (p q : Q) : p < q -> ssq p < ssq q.
Proof.
  intros H. destruct (Qlt_le_dec p 0) as [Hp|Hp], (Qlt_le_dec q 0) as [Hq|Hq].
  - rewrite !ssq_nonpos by now apply Qlt_le_weak. nra.
  - rewrite (ssq_nonpos p), (ssq_nonneg q) by (assumption || now apply Qlt_le_weak). nra.
  - lra.
  - rewrite !ssq_nonneg by assumption. nra.
Qed.

Lemma ssq_le (p q : Q) : p <= q -> ssq p <= ssq q.
Proof.
  intros H. destruct (Qle_lt_or_eq _ _ H) as [Hlt|Heq].
  - apply Qlt_le_weak, ssq_lt, Hlt.
  - unfold ssq. rewrite Heq. apply Qle_refl.
Qed.

Lemma ssq_0 : ssq 0 == 0.
Proof. reflexivity. Qed.

(** *** The byte conversion *)

Lemma ToUint8Clamp_comp (x y : root) :
  sq x == sq y -> ToUint8Clamp x = ToUint8Clamp y.
Proof.
  intros H. unfold ToUint8Clamp. cbv zeta.
  rewrite (Qleb_comp _ _ H 0 0 (Qeq_refl 0)).
  rewrite (Qleb_comp _ _ (Qeq_refl (255 * 255)) _ _ H).
  rewrite (Qfloor_comp _ _ H).
  set (f := Z.sqrt (Qfloor (sq y))).
  now rewrite (Qcompare_comp _ _ H _ _ (Qeq_refl _)).
Qed.

Lemma ToUint8Clamp_low (x : root) : sq x <= 0 -> ToUint8Clamp x = 0%Z.
Proof.
  intros H. unfold ToUint8Clamp. cbv zeta.
  now rewrite (proj2 (Qle_bool_iff _ _) H).
Qed.

Lemma ToUint8Clamp_high (x : root) : 255 * 255 <= sq x -> ToUint8Clamp x = 255%Z.
Proof.
  intros H. unfold ToUint8Clamp. cbv zeta.
  destruct (Qle_bool (sq x) 0) eqn:E.
  - apply Qle_bool_iff in E. exfalso. lra.
  - now rewrite (proj2 (Qle_bool_iff _ _) H).
Qed.

Lemma quarter (k : Z) : (k # 4) == inject_Z k / 4.
Proof. apply Qmake_Qdiv. Qed.

(** Between the two clamps: [f] is the floor of the root, and the signed
    square is compared with [(f + 1/2)^2]. *)
Lemma ToUint8Clamp_cases (x : root) :
  0 < sq x -> sq x < 255 * 255 ->
  exists f : Z,
    (0 <= f < 255)%Z /\
    inject_Z f * inject_Z f <= sq x /\
    sq x < (inject_Z f + 1) * (inject_Z f + 1) /\
    ((4 * sq x < (2 * inject_Z f + 1) * (2 * inject_Z f + 1)
      /\ ToUint8Clamp x = f) \/
     ((2 * inject_Z f + 1) * (2 * inject_Z f + 1) < 4 * sq x
      /\ ToUint8Clamp x = (f + 1)%Z) \/
     (4 * sq x == (2 * inject_Z f + 1) * (2 * inject_Z f + 1)
      /\ ToUint8Clamp x = if Z.even f then f else (f + 1)%Z)).
Proof.
  intros Hpos Hhi. unfold ToUint8Clamp. cbv zeta.
  destruct (Qle_bool (sq x) 0) eqn:E0.
  { apply Qle_bool_iff in E0. exfalso. lra. }
  destruct (Qle_bool (255 * 255) (sq x)) eqn:E1.
  { apply Qle_bool_iff in E1. exfalso. lra. }
  set (s := sq x) in *.
  assert (Hn0 : (0 <= Qfloor s)%Z).
  { rewrite <- (Qfloor_Z 0). apply Qfloor_resp_le. now apply Qlt_le_weak. }
  assert (Hn1 : (Qfloor s < 255 * 255)%Z).
  { rewrite Zlt_Qlt. eapply Qle_lt_trans; [apply Qfloor_le|]. exact Hhi. }
  pose proof (Z.sqrt_spec (Qfloor s) Hn0) as Hsq. cbv zeta in Hsq.
  pose proof (Z.sqrt_nonneg (Qfloor s)) as Hf0.
  set (f := Z.sqrt (Qfloor s)) in *.
  assert (Hf1 : (f < 255)%Z) by nia.
  assert (Hlo : inject_Z f * inject_Z f <= s).
  { eapply Qle_trans; [|apply Qfloor_le].
    rewrite <- inject_Z_mult, <- Zle_Qle. lia. }
  assert (Hup : s < (inject_Z f + 1) * (inject_Z f + 1)).
  { eapply Qlt_le_trans; [apply Qlt_floor|].
    change 1 with (inject_Z 1).
    rewrite <- !inject_Z_plus, <- inject_Z_mult, <- Zle_Qle. lia. }
  assert (Hh : 4 * ((2 * f + 1) * (2 * f + 1) # 4)
               == (2 * inject_Z f + 1) * (2 * inject_Z f + 1)).
  { rewrite quarter, inject_Z_mult, inject_Z_plus, inject_Z_mult.
    change (inject_Z 2) with 2. change (inject_Z 1) with 1. field. }
  exists f. split; [lia|]. split; [exact Hlo|]. split; [exact Hup|].
  destruct (Qcompare_spec s ((2 * f + 1) * (2 * f + 1) # 4)) as [H|H|H];
    revert H Hh; generalize ((2 * f + 1) * (2 * f + 1) # 4); intros K H Hh.
  - right; right. split; [lra|reflexivity].
  - left. split; [lra|reflexivity].
  - right; left. split; [lra|reflexivity].
Qed.

(** So the result [r] is a nearest integer of the root:
    [(2r - 1)^2 <= 4 s <= (2r + 1)^2], the lower bound for [r > 0]. *)
Lemma ToUint8Clamp_mid (x : root) :
  0 < sq x -> sq x < 255 * 255 ->
  let r := ToUint8Clamp x in
  (0 <= r <= 255)%Z /\
  (r = 0%Z \/ (2 * inject_Z r - 1) * (2 * inject_Z r - 1) <= 4 * sq x) /\
  4 * sq x <= (2 * inject_Z r + 1) * (2 * inject_Z r + 1).
Proof.
  intros Hpos Hhi. cbv zeta.
  destruct (ToUint8Clamp_cases x Hpos Hhi) as (f & Hf & Hlo & Hup & Hc).
  assert (HF0 : 0 <= inject_Z f).
  { change 0 with (inject_Z 0). rewrite <- Zle_Qle. lia. }
  assert (Hsucc : inject_Z (f + 1) == inject_Z f + 1).
  { now rewrite inject_Z_plus. }
  assert (Hcase0 : f = 0%Z \/ 1 <= inject_Z f).
  { destruct (Z.eq_dec f 0) as [->|Hne]; [now left|right].
    change 1 with (inject_Z 1). rewrite <- Zle_Qle. lia. }
  assert (Hkeep : f = 0%Z \/ (2 * inject_Z f - 1) * (2 * inject_Z f - 1) <= 4 * sq x).
  { destruct Hcase0 as [->|H1]; [now left|right; nra]. }
  destruct Hc as [[H ->]|[[H ->]|[H ->]]].
  - split; [lia|]. split; [exact Hkeep|nra].
  - split; [lia|]. rewrite Hsucc. split; [right; nra|nra].
  - destruct (Z.even f).
    + split; [lia|]. split; [exact Hkeep|nra].
    + split; [lia|]. rewrite Hsucc. split; [right; nra|nra].
Qed.

Lemma ToUint8Clamp_range (x : root) : (0 <= ToUint8Clamp x <= 255)%Z.
Proof.
  destruct (Qlt_le_dec 0 (sq x)) as [Hpos|Hneg].
  - destruct (Qlt_le_dec (sq x) (255 * 255)) as [Hhi|Hhi].
    + apply (ToUint8Clamp_mid x Hpos Hhi).
    + rewrite ToUint8Clamp_high by assumption. lia.
  - rewrite ToUint8Clamp_low by assumption. lia.
Qed.

(** Rounding keeps the order. *)
Lemma ToUint8Clamp_mono (x y : root) :
  sq x <= sq y -> (ToUint8Clamp x <= ToUint8Clamp y)%Z.
Proof.
  intros Hxy.
  destruct (Qlt_le_dec 0 (sq x)) as [Hx0|Hx0].
  2:{ rewrite (ToUint8Clamp_low x Hx0). apply ToUint8Clamp_range. }
  destruct (Qlt_le_dec (sq y) (255 * 255)) as [Hy1|Hy1].
  2:{ rewrite (ToUint8Clamp_high y Hy1). apply ToUint8Clamp_range. }
  assert (Hy0 : 0 < sq y) by lra.
  assert (Hx1 : sq x < 255 * 255) by lra.
  destruct (ToUint8Clamp_mid x Hx0 Hx1) as (Hrx & Hlx & Hux).
  destruct (ToUint8Clamp_mid y Hy0 Hy1) as (Hry & Hly & Huy).
  cbv zeta in *.
  destruct (Z_lt_le_dec (ToUint8Clamp y) (ToUint8Clamp x)) as [Hlt|Hle];
    [exfalso|exact Hle].
  assert (Heq : sq x == sq y).
  { apply Qle_antisym; [exact Hxy|].
    destruct Hlx as [H0|Hlx]; [lia|].
    assert (H1 : inject_Z (ToUint8Clamp y) + 1 <= inject_Z (ToUint8Clamp x)).
    { change 1 with (inject_Z 1). rewrite <- inject_Z_plus, <- Zle_Qle. lia. }
    assert (H2 : 0 <= inject_Z (ToUint8Clamp y)).
    { change 0 with (inject_Z 0). rewrite <- Zle_Qle. lia. }
    nra. }
  rewrite (ToUint8Clamp_comp x y Heq) in Hlt. lia.
Qed.

End NumFacts.

(** ** The exact numbers as real numbers *)

Module NumReal.
Import Num NumFacts.
Local Open Scope R_scope.

Lemma sroot_sq (r : R) : sroot r * Rabs (sroot r) = r.
Proof.
  unfold sroot. destruct (Rle_dec 0 r) as [H|H].
  - rewrite Rabs_pos_eq by apply sqrt_pos. now apply sqrt_sqrt.
  - assert (H' : 0 <= - r) by lra.
    rewrite Rabs_Ropp, Rabs_pos_eq by apply sqrt_pos.
    pose proof (sqrt_sqrt (- r) H'). lra.
Qed.

Lemma sroot_unique (r y : R) : y * Rabs y = r -> sroot r = y.
Proof.
  intros <-. unfold sroot.
  destruct (Rle_lt_dec 0 y) as [Hy|Hy].
  - rewrite Rabs_pos_eq by assumption.
    destruct (Rle_dec 0 (y * y)) as [H|H]; [now apply sqrt_square|].
    exfalso. apply H. nra.
  - rewrite Rabs_left by assumption.
    destruct (Rle_dec 0 (y * - y)) as [H|H]; [exfalso; nra|].
    replace (- (y * - y)) with (- y * - y) by ring.
    rewrite sqrt_square by lra. ring.
Qed.

Lemma sroot_lt (a b : R) : a < b -> sroot a < sroot b.
Proof.
  intros Hab. unfold sroot.
  destruct (Rle_dec 0 a) as [Ha|Ha], (Rle_dec 0 b) as [Hb|Hb].
  - now apply sqrt_lt_1.
  - exfalso. lra.
  - pose proof (sqrt_pos b). assert (0 < sqrt (- a)) by (apply sqrt_lt_R0; lra). lra.
  - assert (sqrt (- b) < sqrt (- a)) by (apply sqrt_lt_1; lra). lra.
Qed.

Lemma Q2R_inject_Z (z : Z) : Q2R (inject_Z z) = IZR z.
Proof. unfold Q2R. simpl. field. Qed.

Lemma Q2R_Qabs (q : Q) : Q2R (Qabs q) = Rabs (Q2R q).
Proof.
  destruct (Qlt_le_dec q 0) as [H|H].
  - rewrite (Qeq_eqR _ _ (Qabs_neg q (Qlt_le_weak _ _ H))), Q2R_opp.
    apply Qlt_Rlt in H. rewrite RMicromega.Q2R_0 in H.
    now rewrite Rabs_left.
  - rewrite (Qeq_eqR _ _ (Qabs_pos q H)).
    apply Qle_Rle in H. rewrite RMicromega.Q2R_0 in H.
    now rewrite Rabs_pos_eq.
Qed.

Lemma Q2R_ssq (q : Q) : Q2R (ssq q) = Q2R q * Rabs (Q2R q).
Proof. unfold ssq. now rewrite Q2R_mult, Q2R_Qabs. Qed.

Lemma toR_sroot (x : root) : toR x = sroot (Q2R (sq x)).
Proof. reflexivity. Qed.

(** A root is the real whose signed square is [sq]. *)
Lemma toR_sq (x : root) : toR x * Rabs (toR x) = Q2R (sq x).
Proof. rewrite toR_sroot. apply sroot_sq. Qed.

Lemma toR_unique (x : root) (y : R) : y * Rabs y = Q2R (sq x) -> toR x = y.
Proof. rewrite toR_sroot. apply sroot_unique. Qed.

Lemma toR_comp (x y : root) : (sq x == sq y)%Q -> toR x = toR y.
Proof. intros H. rewrite !toR_sroot. now rewrite (Qeq_eqR _ _ H). Qed.

(** [of_Q q] is [q]. *)
Lemma toR_of_Q (q : Q) : toR (of_Q q) = Q2R q.
Proof. apply toR_unique. simpl. now rewrite Q2R_ssq. Qed.

(** [Math_sqrt q] is the square root of [q]. *)
Lemma toR_sqrt (q : Q) : (0 <= q)%Q -> toR (Math_sqrt q) = sqrt (Q2R q).
Proof.
  intros H. unfold toR, sroot, Math_sqrt. cbn [sq].
  apply Qle_Rle in H. rewrite RMicromega.Q2R_0 in H.
  destruct (Rle_dec 0 (Q2R q)) as [_|Hn]; [reflexivity|contradiction].
Qed.

(** Scaling by a rational. *)
Lemma toR_mul (x : root) (q : Q) : toR (mul x q) = toR x * Q2R q.
Proof.
  apply toR_unique. simpl.
  rewrite Q2R_mult, Q2R_ssq, <- toR_sq, Rabs_mult. ring.
Qed.

Lemma toR_div (x : root) (q : Q) :
  ~ (q == 0)%Q -> toR (div x q) = toR x / Q2R q.
Proof.
  intros Hq. apply toR_unique. simpl.
  assert (Hq' : Q2R q <> 0).
  { intros H. apply Hq, eqR_Qeq. now rewrite RMicromega.Q2R_0. }
  assert (Hs : ~ (ssq q == 0)%Q).
  { intros H. apply Qeq_eqR in H. rewrite Q2R_ssq, RMicromega.Q2R_0 in H.
    apply Rmult_integral in H as [H|H]; [tauto|].
    apply Hq'. destruct (Req_dec (Q2R q) 0) as [E|E]; [exact E|].
    exfalso. now apply (Rabs_no_R0 _ E). }
  rewrite Q2R_div by assumption.
  rewrite Q2R_ssq, <- toR_sq.
  unfold Rdiv. rewrite Rabs_mult, Rabs_inv.
  field. split; [now apply Rabs_no_R0 | assumption].
Qed.

(** The order on the roots is the order of the reals. *)
Lemma ltb_toR (x y : root) : ltb x y = true <-> toR x < toR y.
Proof.
  split.
  - intros H. apply ltb_lt, Qlt_Rlt in H. rewrite !toR_sroot. now apply sroot_lt.
  - intros H. destruct (ltb x y) eqn:E; [reflexivity|exfalso].
    apply ltb_ge in E.
    destruct (Qle_lt_or_eq _ _ E) as [E'|E'].
    + apply Qlt_Rlt, sroot_lt in E'. rewrite <- !toR_sroot in E'. lra.
    + rewrite (toR_comp _ _ E') in H. lra.
Qed.

Lemma ltb_toR_false (x y : root) : ltb x y = false <-> toR y <= toR x.
Proof.
  pose proof (ltb_toR x y). destruct (ltb x y).
  - split; [discriminate|]. intros H'. assert (toR x < toR y) by tauto. lra.
  - split; [|reflexivity]. intros _.
    destruct (Rle_lt_dec (toR y) (toR x)); [assumption|].
    assert (false = true) by tauto. discriminate.
Qed.

Lemma toR_min (x y : root) : toR (Math_min x y) = Rmin (toR x) (toR y).
Proof.
  unfold Math_min. destruct (ltb y x) eqn:E.
  - apply ltb_toR in E. rewrite Rmin_right; lra.
  - apply ltb_toR_false in E. now rewrite Rmin_left.
Qed.

Lemma toR_max (x y : root) : toR (Math_max x y) = Rmax (toR x) (toR y).
Proof.
  unfold Math_max. destruct (ltb x y) eqn:E.
  - apply ltb_toR in E. rewrite Rmax_right; lra.
  - apply ltb_toR_false in E. now rewrite Rmax_left.
Qed.

Lemma toR_le (x y : root) : (sq x <= sq y)%Q -> toR x <= toR y.
Proof. intros H. now apply ltb_toR_false, ltb_ge. Qed.

Lemma toR_lt (x y : root) : (sq x < sq y)%Q -> toR x < toR y.
Proof. intros H. now apply ltb_toR, ltb_lt. Qed.

Lemma Q2R_small (z : Z) : Q2R (z # 1) = IZR z.
Proof. apply (Q2R_inject_Z z). Qed.

Ltac push_Q2R H :=
  repeat (rewrite Q2R_mult in H || rewrite Q2R_plus in H ||
          rewrite Q2R_inject_Z in H || rewrite Q2R_small in H).

(** The byte stored for a root [x] is the integer nearest to [x] clamped
    to [0, 255], and the even one of the two when [x] is half-way. *)
Theorem ToUint8Clamp_nearest (x : root) :
  let c := Rmax 0 (Rmin 255 (toR x)) in
  Rabs (IZR (ToUint8Clamp x) - c) <= 1 / 2 /\
  (Rabs (IZR (ToUint8Clamp x) - c) = 1 / 2 -> Z.even (ToUint8Clamp x) = true).
Proof.
  cbv zeta.
  destruct (Qlt_le_dec 0 (sq x)) as [Hpos|Hneg].
  2:{ rewrite (ToUint8Clamp_low x Hneg).
      assert (Ht : toR x <= 0).
      { rewrite <- RMicromega.Q2R_0, <- toR_of_Q. now apply toR_le. }
      rewrite Rmin_right by lra. rewrite Rmax_left by lra.
      rewrite Rminus_diag, Rabs_R0. split; intros; lra. }
  destruct (Qlt_le_dec (sq x) (255 * 255)) as [Hhi|Hhi].
  2:{ rewrite (ToUint8Clamp_high x Hhi).
      assert (Ht : 255 <= toR x).
      { rewrite <- (Q2R_small 255), <- toR_of_Q. now apply toR_le. }
      rewrite Rmin_left by lra. rewrite Rmax_right by lra.
      rewrite Rminus_diag, Rabs_R0. split; intros; lra. }
  assert (Ht0 : 0 < toR x).
  { rewrite <- RMicromega.Q2R_0, <- toR_of_Q. now apply toR_lt. }
  assert (Ht1 : toR x < 255).
  { rewrite <- (Q2R_small 255), <- toR_of_Q. now apply toR_lt. }
  pose proof (toR_sq x) as Hsq. rewrite Rabs_pos_eq in Hsq by lra.
  rewrite Rmin_right by lra. rewrite Rmax_right by lra.
  destruct (ToUint8Clamp_cases x Hpos Hhi) as (f & Hf & Hlo & Hup & Hc).
  apply Qle_Rle in Hlo. apply Qlt_Rlt in Hup.
  push_Q2R Hlo. push_Q2R Hup.
  assert (HF : 0 <= IZR f < 255).
  { split; [apply IZR_le | apply IZR_lt]; lia. }
  rewrite <- Hsq in Hlo, Hup.
  set (t := toR x) in *. set (F := IZR f) in *.
  assert (Hft : F <= t < F + 1) by nra.
  destruct Hc as [[H ->]|[[H ->]|[H ->]]].
  - apply Qlt_Rlt in H.
    push_Q2R H. rewrite <- Hsq in H.
    fold F in H. assert (Hh : t < F + 1 / 2).
    { destruct (Rlt_le_dec t (F + 1 / 2)); [assumption|exfalso; nra]. }
    fold F. rewrite Rabs_left1 by lra. split; intros; lra.
  - apply Qlt_Rlt in H.
    push_Q2R H. rewrite <- Hsq in H.
    fold F in H. assert (Hh : F + 1 / 2 < t).
    { destruct (Rlt_le_dec (F + 1 / 2) t); [assumption|exfalso; nra]. }
    rewrite plus_IZR. fold F.
    rewrite Rabs_pos_eq by lra. split; intros; lra.
  - apply Qeq_eqR in H.
    push_Q2R H. rewrite <- Hsq in H.
    fold F in H. assert (Hh : t = F + 1 / 2).
    { destruct (Rtotal_order t (F + 1 / 2)) as [Hlt|[Heq|Hgt]];
        [exfalso; nra | assumption | exfalso; nra]. }
    destruct (Z.even f) eqn:Ev.
    + fold F. rewrite Rabs_left1 by lra. split; intros; [lra|exact Ev].
    + rewrite plus_IZR. fold F.
      rewrite Rabs_pos_eq by lra. split; intros; [lra|].
      rewrite Z.even_add, Ev. reflexivity.
Qed.

End NumReal.

(** ** Facts on the pixel pass *)

Module ExpressFacts.
Import Num Express.
Local Open Scope nat_scope.

Section Pass.
Variables (bg : estimate) (tol fth : Q).

Lemma body_length (i : nat) (d : list Z) :
  length (body bg tol fth i d) = length d.
Proof.
  unfold body.
  destruct bg as [c|], (d !! i), (d !! (i + 1)), (d !! (i + 2)); trivial.
  destruct (ltb _ _); trivial. apply length_insert.
Qed.

(** The body writes the alpha entry of its pixel and nothing else. *)
Lemma body_lookup_ne (i j : nat) (d : list Z) :
  j <> i + 3 -> body bg tol fth i d !! j = d !! j.
Proof.
  intros Hj. unfold body.
  destruct bg as [c|], (d !! i), (d !! (i + 1)), (d !! (i + 2)); trivial.
  destruct (ltb _ _); trivial. apply list_lookup_insert_ne. lia.
Qed.

(** What it writes depends on the four entries of the pixel only. *)
Lemma body_ext (i : nat) (d d' : list Z) :
  d !! i = d' !! i -> d !! (i + 1) = d' !! (i + 1) ->
  d !! (i + 2) = d' !! (i + 2) -> d !! (i + 3) = d' !! (i + 3) ->
  body bg tol fth i d !! (i + 3) = body bg tol fth i d' !! (i + 3).
Proof.
  intros H0 H1 H2 H3. unfold body. rewrite H0, H1, H2.
  destruct bg as [c|], (d' !! i), (d' !! (i + 1)), (d' !! (i + 2)); trivial.
  destruct (ltb _ _); trivial.
  rewrite !list_lookup_insert.
  assert (Hlen : i + 3 < length d <-> i + 3 < length d').
  { rewrite <- !lookup_lt_is_Some, H3. tauto. }
  repeat case_decide; trivial; exfalso; tauto.
Qed.

Lemma loop_length (fuel i : nat) (d : list Z) :
  length (loop fuel bg tol fth i d) = length d.
Proof.
  revert i d. induction fuel as [|fuel IH]; intros i d; simpl; trivial.
  destruct (i <? length d); trivial. now rewrite IH, body_length.
Qed.

(** Entries that are not the alpha of a pixel from [i] on are kept. *)
Lemma loop_lookup_other (fuel i j : nat) (d : list Z) :
  (forall m, j <> i + 4 * m + 3) ->
  loop fuel bg tol fth i d !! j = d !! j.
Proof.
  revert i d. induction fuel as [|fuel IH]; intros i d Hj; simpl; trivial.
  destruct (i <? length d); trivial.
  rewrite IH.
  - apply body_lookup_ne. specialize (Hj 0). lia.
  - intros m. specialize (Hj (S m)). lia.
Qed.

Lemma body_beyond (i : nat) (d : list Z) :
  length d <= i -> body bg tol fth i d = d.
Proof.
  intros H. unfold body. rewrite (lookup_ge_None_2 d i H).
  now destruct bg.
Qed.

(** With enough fuel the alpha of every pixel from [i] on is the one the
    body computes from the initial array. *)
Lemma loop_lookup_alpha (fuel i m : nat) (d : list Z) :
  length d <= i + 4 * fuel ->
  loop fuel bg tol fth i d !! (i + 4 * m + 3)
  = body bg tol fth (i + 4 * m) d !! (i + 4 * m + 3).
Proof.
  revert i m d. induction fuel as [|fuel IH]; intros i m d Hfuel; cbn [loop].
  { rewrite body_beyond; [trivial | lia]. }
  destruct (Nat.ltb_spec i (length d)) as [Hi|Hi].
  2:{ rewrite body_beyond; [trivial | lia]. }
  destruct m as [|m].
  - rewrite loop_lookup_other by (intros m; lia).
    replace (i + 4 * 0) with i by lia. reflexivity.
  - replace (i + 4 * S m) with (i + 4 + 4 * m) by lia.
    rewrite IH by (rewrite body_length; lia).
    apply body_ext; apply body_lookup_ne; lia.
Qed.

End Pass.

Lemma threshold_length (w h : nat) (tol fth : Q) (d : list Z) :
  length (threshold w h tol fth d) = length d.
Proof. apply loop_length. Qed.

Lemma threshold_lookup_other (w h : nat) (tol fth : Q) (d : list Z) (j : nat) :
  (forall m, j <> 4 * m + 3) -> threshold w h tol fth d !! j = d !! j.
Proof. intros Hj. apply loop_lookup_other. intros m. apply Hj. Qed.

Lemma threshold_lookup_alpha (w h : nat) (tol fth : Q) (d : list Z) (p : nat) :
  threshold w h tol fth d !! (p * 4 + 3)
  = body (background w h d) tol fth (p * 4) d !! (p * 4 + 3).
Proof.
  unfold threshold.
  replace (p * 4) with (0 + 4 * p) by lia.
  apply loop_lookup_alpha. lia.
Qed.

(** The pass, pixel by pixel: colour kept; alpha rewritten when the
    distance to the estimate is below the tolerance. *)
Lemma threshold_pixel (w h : nat) (tol fth : Q) (d : list Z) (p : nat)
    (bg : Q * Q * Q) (r g b a : Z) :
  background w h d = Some bg ->
  pixel d p = Some (r, g, b, a) ->
  pixel (threshold w h tol fth d) p
  = Some (r, g, b,
          if ltb (distance bg r g b) (of_Q tol)
          then new_alpha (distance bg r g b) tol fth else a).
Proof.
  intros Hbg Hp. unfold pixel in *.
  rewrite !threshold_lookup_other by (intros m; lia).
  rewrite threshold_lookup_alpha, Hbg.
  destruct (d !! (p * 4)) as [r'|] eqn:E0; [|discriminate].
  destruct (d !! (p * 4 + 1)) as [g'|] eqn:E1; [|discriminate].
  destruct (d !! (p * 4 + 2)) as [b'|] eqn:E2; [|discriminate].
  destruct (d !! (p * 4 + 3)) as [a'|] eqn:E3; [|discriminate].
  injection Hp as -> -> -> ->.
  unfold body. rewrite E0, E1, E2.
  destruct (ltb _ _).
  - rewrite list_lookup_insert_eq; [trivial|].
    now apply lookup_lt_is_Some; exists a.
  - now rewrite E3.
Qed.

(** Without an estimate (a corner outside the array) nothing is written. *)
Lemma threshold_no_estimate (w h : nat) (tol fth : Q) (d : list Z) :
  background w h d = None -> threshold w h tol fth d = d.
Proof.
  intros Hbg. unfold threshold. rewrite Hbg.
  assert (H : forall fuel i d', loop fuel None tol fth i d' = d').
  { induction fuel as [|fuel IH]; intros i d'; cbn [loop]; trivial.
    destruct (i <? length d'); trivial. }
  apply H.
Qed.

(** *** The background estimate *)

Lemma add_corner_pixel (w x y : nat) (d : list Z) (rSum gSum bSum r g b a : Z) :
  pixel d (y * w + x) = Some (r, g, b, a) ->
  add_corner w d (Some (rSum, gSum, bSum)) (x, y)
  = Some (rSum + r, gSum + g, bSum + b)%Z.
Proof.
  unfold pixel, add_corner. intros H.
  destruct (d !! ((y * w + x) * 4)); [|discriminate].
  destruct (d !! ((y * w + x) * 4 + 1)); [|discriminate].
  destruct (d !! ((y * w + x) * 4 + 2)); [|discriminate].
  destruct (d !! ((y * w + x) * 4 + 3)); [|discriminate].
  now injection H as -> -> -> ->.
Qed.

(** The estimate is the mean of the four corner pixels, channel by
    channel. *)
Lemma background_mean (w h : nat) (d : list Z)
    (r1 g1 b1 a1 r2 g2 b2 a2 r3 g3 b3 a3 r4 g4 b4 a4 : Z) :
  pixel d (0 * w + 0) = Some (r1, g1, b1, a1) ->
  pixel d (0 * w + (w - 1)) = Some (r2, g2, b2, a2) ->
  pixel d ((h - 1) * w + 0) = Some (r3, g3, b3, a3) ->
  pixel d ((h - 1) * w + (w - 1)) = Some (r4, g4, b4, a4) ->
  background w h d
  = Some (inject_Z (0 + r1 + r2 + r3 + r4) / 4,
          inject_Z (0 + g1 + g2 + g3 + g4) / 4,
          inject_Z (0 + b1 + b2 + b3 + b4) / 4)%Q.
Proof.
  intros H1 H2 H3 H4. unfold background, corners. cbn [fold_left].
  rewrite (add_corner_pixel _ _ _ _ _ _ _ _ _ _ _ H1).
  rewrite (add_corner_pixel _ _ _ _ _ _ _ _ _ _ _ H2).
  rewrite (add_corner_pixel _ _ _ _ _ _ _ _ _ _ _ H3).
  now rewrite (add_corner_pixel _ _ _ _ _ _ _ _ _ _ _ H4).
Qed.

(** In an array of [w * h] pixels every pixel below [w * h] is there. *)
Lemma pixel_defined (d : list Z) (n p : nat) :
  length d = n * 4 -> p < n -> exists r g b a, pixel d p = Some (r, g, b, a).
Proof.
  intros Hlen Hp. unfold pixel.
  destruct (lookup_lt_is_Some_2 d (p * 4)) as [r ->]; [lia|].
  destruct (lookup_lt_is_Some_2 d (p * 4 + 1)) as [g ->]; [lia|].
  destruct (lookup_lt_is_Some_2 d (p * 4 + 2)) as [b ->]; [lia|].
  destruct (lookup_lt_is_Some_2 d (p * 4 + 3)) as [a ->]; [lia|].
  now exists r, g, b, a.
Qed.

Lemma corner_in_range (w h x y : nat) :
  0 < w -> 0 < h -> In (x, y) (corners w h) -> y * w + x < w * h.
Proof.
  intros Hw Hh Hin. unfold corners in Hin. cbn [In] in Hin.
  assert (Hlast : (h - 1) * w + (w - 1) < w * h) by nia.
  assert (Hrow : (h - 1) * w + 0 < w * h) by nia.
  destruct Hin as [E|[E|[E|[E|[]]]]]; injection E as <- <-; nia.
Qed.

(** A well-formed image with a pixel at least has an estimate. *)
Lemma background_defined (img : ImageData) :
  well_formed img -> 0 < width img -> 0 < height img ->
  exists bg, background (width img) (height img) (data img) = Some bg.
Proof.
  intros [Hlen _] Hw Hh.
  set (w := width img) in *. set (h := height img) in *.
  assert (Hc : forall x y, In (x, y) (corners w h) ->
               exists r g b a, pixel (data img) (y * w + x) = Some (r, g, b, a)).
  { intros x y Hin. apply (pixel_defined _ (w * h)); [exact Hlen|].
    now apply corner_in_range. }
  destruct (Hc 0 0) as (r1 & g1 & b1 & a1 & H1); [cbn; tauto|].
  destruct (Hc (w - 1) 0) as (r2 & g2 & b2 & a2 & H2); [cbn; tauto|].
  destruct (Hc 0 (h - 1)) as (r3 & g3 & b3 & a3 & H3); [cbn; tauto|].
  destruct (Hc (w - 1) (h - 1)) as (r4 & g4 & b4 & a4 & H4); [cbn; tauto|].
  eexists. apply (background_mean _ _ _ _ _ _ _ _ _ _ _ _ _ _ _ _ _ _ _ H1 H2 H3 H4).
Qed.

(** The entries of a pixel of a well-formed image are bytes. *)
Lemma pixel_bytes (img : ImageData) (p : nat) (r g b a : Z) :
  well_formed img -> pixel (data img) p = Some (r, g, b, a) ->
  byte r /\ byte g /\ byte b /\ byte a.
Proof.
  intros [_ Hb] Hp. unfold pixel in Hp.
  destruct (data img !! (p * 4)) as [r'|] eqn:E0; [|discriminate].
  destruct (data img !! (p * 4 + 1)) as [g'|] eqn:E1; [|discriminate].
  destruct (data img !! (p * 4 + 2)) as [b'|] eqn:E2; [|discriminate].
  destruct (data img !! (p * 4 + 3)) as [a'|] eqn:E3; [|discriminate].
  injection Hp as <- <- <- <-.
  rewrite Forall_lookup in Hb. repeat split; eapply Hb; eassumption.
Qed.

(** *** Running the engine *)

Lemma processInstant_runs (img : ImageData) (tol fth : Q) :
  0 < width img -> 0 < height img ->
  processInstant true true img tol fth
  = ([onResult (mkImageData (width img) (height img)
                  (threshold (width img) (height img) tol fth (data img)))],
     Returns).
Proof.
  intros Hw Hh. unfold processInstant. cbn [negb].
  destruct (Nat.eqb_spec (width img) 0) as [E|_]; [lia|].
  destruct (Nat.eqb_spec (height img) 0) as [E|_]; [lia|].
  reflexivity.
Qed.

End ExpressFacts.

(** ** The Express engine against its specification *)

Module ExpressClaims.
Import Num Express NumFacts NumReal ExpressFacts.
Local Open Scope nat_scope.

Lemma lt_ltb (x y : root) : lt x y <-> ltb x y = true.
Proof. unfold lt. now rewrite ltb_toR. Qed.

Lemma le_ltb (x y : root) : le x y <-> ltb y x = false.
Proof. unfold le. now rewrite ltb_toR_false. Qed.

Lemma distance_nonneg (bg : Q * Q * Q) (r g b : Z) :
  (0 <= sq (distance bg r g b))%Q.
Proof.
  destruct bg as [[bgR bgG] bgB]. unfold distance, Math_sqrt, Math_pow2.
  cbn [sq].
  generalize (inject_Z r - bgR)%Q (inject_Z g - bgG)%Q (inject_Z b - bgB)%Q.
  intros x y z. nra.
Qed.

(** The distance of the model is the Euclidean distance in RGB space. *)
Lemma toR_distance (bgR bgG bgB : Q) (r g b : Z) :
  toR (distance (bgR, bgG, bgB) r g b)
  = sqrt ((IZR r - Q2R bgR) * (IZR r - Q2R bgR) +
          (IZR g - Q2R bgG) * (IZR g - Q2R bgG) +
          (IZR b - Q2R bgB) * (IZR b - Q2R bgB))%R.
Proof.
  rewrite <- !Q2R_inject_Z. unfold distance.
  rewrite toR_sqrt.
  - unfold Math_pow2. now rewrite !Q2R_plus, !Q2R_mult, !Q2R_minus.
  - apply (distance_nonneg (bgR, bgG, bgB)).
Qed.

Lemma two_thirds (tol : Q) : (0 < tol -> tol / (3 # 2) < tol)%Q.
Proof.
  intros H. unfold Qdiv. change (/ (3 # 2))%Q with (2 # 3)%Q. lra.
Qed.

(** C7: a pixel whose Euclidean RGB distance from the background estimate
    is at least the tolerance keeps its alpha (and its colour) in the
    output of the Express engine. *)
Theorem far_pixel_alpha_kept (img : ImageData) (tol fth : Q) (p : nat)
    (bg : Q * Q * Q) (r g b a : Z) :
  0 < width img -> 0 < height img ->
  background (width img) (height img) (data img) = Some bg ->
  pixel (data img) p = Some (r, g, b, a) ->
  le (of_Q tol) (distance bg r g b) ->
  exists out,
    processInstant true true img tol fth = ([onResult out], Returns) /\
    pixel (data out) p = Some (r, g, b, a).
Proof.
  intros Hw Hh Hbg Hp Hfar. eexists. split.
  - now apply processInstant_runs.
  - cbn [data]. rewrite (threshold_pixel _ _ _ _ _ _ _ _ _ _ _ Hbg Hp).
    apply le_ltb in Hfar. now rewrite Hfar.
Qed.

Lemma far_pixel_alpha_kept_witness :
  exists out,
    processInstant true true Specified.white4x4 50 2 = ([onResult out], Returns) /\
    pixel (data out) 5 = Some (0, 0, 0, 255)%Z.
Proof.
  apply (far_pixel_alpha_kept Specified.white4x4 50 2 5
           (inject_Z 1020 / 4, inject_Z 1020 / 4, inject_Z 1020 / 4)%Q 0 0 0 255).
  - cbn. lia.
  - cbn. lia.
  - reflexivity.
  - reflexivity.
  - now apply le_ltb.
Defined.

(** C8: the output of the Express engine has the dimensions of the source
    and as many entries; every entry that is not the alpha of a pixel, so
    every R, G and B channel, is the one of the source. *)
Theorem colour_channels_kept (img : ImageData) (tol fth : Q) :
  0 < width img -> 0 < height img ->
  exists out,
    processInstant true true img tol fth = ([onResult out], Returns) /\
    width out = width img /\ height out = height img /\
    length (data out) = length (data img) /\
    (forall j, j mod 4 <> 3 -> data out !! j = data img !! j) /\
    (forall p r g b a, pixel (data img) p = Some (r, g, b, a) ->
       exists a', pixel (data out) p = Some (r, g, b, a')).
Proof.
  intros Hw Hh. eexists. split; [now apply processInstant_runs|].
  cbn [width height data]. repeat split.
  - apply threshold_length.
  - intros j Hj. apply threshold_lookup_other. intros m ->. apply Hj.
    replace (4 * m + 3) with (3 + m * 4) by lia.
    now rewrite Nat.Div0.mod_add.
  - intros p r g b a Hp.
    destruct (background (width img) (height img) (data img)) as [bg|] eqn:Hbg.
    + eexists. apply (threshold_pixel _ _ _ _ _ _ _ _ _ _ _ Hbg Hp).
    + exists a. now rewrite threshold_no_estimate.
Qed.

Lemma colour_channels_kept_witness :
  exists out,
    processInstant true true (Specified.strip 255) 30 2 = ([onResult out], Returns) /\
    width out = 3 /\ height out = 1 /\ length (data out) = 12 /\
    data out !! 4 = Some 24%Z.
Proof.
  destruct (colour_channels_kept (Specified.strip 255) 30 2)
    as (out & Hrun & Hw & Hh & Hlen & Hrgb & _).
  - cbn. lia.
  - cbn. lia.
  - exists out. repeat split; trivial.
    rewrite Hrgb; [reflexivity|]. cbn. lia.
Defined.

Lemma mean_of_four (c : Z) : (inject_Z (0 + c + c + c + c) / 4 == inject_Z c)%Q.
Proof.
  rewrite !inject_Z_plus. change (inject_Z 0) with 0%Q. field.
Qed.

Lemma distance_comp (bgR bgG bgB cR cG cB : Q) (r g b : Z) :
  (bgR == cR)%Q -> (bgG == cG)%Q -> (bgB == cB)%Q ->
  (sq (distance (bgR, bgG, bgB) r g b) == sq (distance (cR, cG, cB) r g b))%Q.
Proof.
  intros HR HG HB. unfold distance, Math_sqrt, Math_pow2. cbn [sq].
  now rewrite HR, HG, HB.
Qed.

(** C9: when the four corner pixels share one colour [C], the background
    estimate is [C], and with a positive tolerance every pixel whose
    Euclidean RGB distance from [C] is below [tolerance / 1.5] comes out
    with alpha 0. *)
Theorem uniform_corners_alpha_zero (img : ImageData) (tol fth : Q) (cr cg cb : Z) :
  0 < width img -> 0 < height img -> (0 < tol)%Q ->
  (forall x y, In (x, y) (corners (width img) (height img)) ->
     exists a, pixel (data img) (y * width img + x) = Some (cr, cg, cb, a)) ->
  exists bgR bgG bgB out,
    background (width img) (height img) (data img) = Some (bgR, bgG, bgB) /\
    (bgR == inject_Z cr)%Q /\ (bgG == inject_Z cg)%Q /\ (bgB == inject_Z cb)%Q /\
    processInstant true true img tol fth = ([onResult out], Returns) /\
    forall p r g b a,
      pixel (data img) p = Some (r, g, b, a) ->
      lt (distance (inject_Z cr, inject_Z cg, inject_Z cb) r g b)
         (of_Q (tol / (3 # 2))%Q) ->
      pixel (data out) p = Some (r, g, b, 0%Z).
Proof.
  intros Hw Hh Htol Hc.
  destruct (Hc 0 0) as (a1 & H1); [cbn; tauto|].
  destruct (Hc (width img - 1) 0) as (a2 & H2); [cbn; tauto|].
  destruct (Hc 0 (height img - 1)) as (a3 & H3); [cbn; tauto|].
  destruct (Hc (width img - 1) (height img - 1)) as (a4 & H4); [cbn; tauto|].
  pose proof (background_mean _ _ _ _ _ _ _ _ _ _ _ _ _ _ _ _ _ _ _ H1 H2 H3 H4)
    as Hbg.
  do 4 eexists. split; [exact Hbg|].
  split; [apply mean_of_four|]. split; [apply mean_of_four|].
  split; [apply mean_of_four|].
  split; [now apply processInstant_runs|].
  intros p r g b a Hp Hnear. cbn [data].
  rewrite (threshold_pixel _ _ _ _ _ _ _ _ _ _ _ Hbg Hp).
  apply lt_ltb in Hnear.
  pose proof (distance_comp _ _ _ _ _ _ r g b
                (mean_of_four cr) (mean_of_four cg) (mean_of_four cb)) as Hd.
  rewrite <- (ltb_comp _ _ _ _ Hd (Qeq_refl _)) in Hnear.
  assert (Hin : ltb (distance (inject_Z (0 + cr + cr + cr + cr) / 4,
                               inject_Z (0 + cg + cg + cg + cg) / 4,
                               inject_Z (0 + cb + cb + cb + cb) / 4)%Q r g b)
                    (of_Q tol) = true).
  { apply ltb_lt. apply ltb_lt in Hnear.
    eapply Qlt_trans; [exact Hnear|]. apply ssq_lt, two_thirds, Htol. }
  rewrite Hin. unfold new_alpha. now rewrite Hnear.
Qed.

Lemma uniform_corners_alpha_zero_witness :
  exists out,
    processInstant true true Specified.grey2x2 30 1 = ([onResult out], Returns) /\
    forall p, p < 4 -> pixel (data out) p = Some (200, 200, 200, 0)%Z.
Proof.
  destruct (uniform_corners_alpha_zero Specified.grey2x2 30 1 200 200 200)
    as (bgR & bgG & bgB & out & _ & _ & _ & _ & Hrun & Hpx).
  - cbn. lia.
  - cbn. lia.
  - reflexivity.
  - intros x y Hin. exists 255%Z. cbn in Hin.
    destruct Hin as [E|[E|[E|[E|[]]]]]; injection E as <- <-; reflexivity.
  - exists out. split; [exact Hrun|].
    intros p Hp. apply (Hpx p 200 200 200 255)%Z.
    + destruct p as [|[|[|[|p]]]]; [reflexivity..|lia].
    + now apply lt_ltb.
Defined.

(** *** The ramp *)

Lemma or_else_max (fth : Q) :
  (fth == 0 \/ 1 <= fth)%Q -> or_else fth 1 = Qmax fth 1.
Proof.
  intros H. unfold or_else, Qmax, GenericMinMax.gmax.
  destruct (Qeq_bool fth 0) eqn:E0, (Qcompare_spec fth 1) as [Hc|Hc|Hc]; trivial.
  - apply Qeq_bool_iff in E0. exfalso. lra.
  - apply Qeq_bool_iff in E0. exfalso. lra.
  - exfalso. destruct H as [H|H].
    + apply Qeq_bool_iff in H. congruence.
    + lra.
Qed.

Lemma ramp_zone_ltb (dist : root) (tol : Q) :
  Specified.ramp_zone dist tol ->
  ltb dist (of_Q tol) = true /\ ltb dist (of_Q (tol / (3 # 2))%Q) = false.
Proof.
  intros [Hlo Hhi]. split; [now apply lt_ltb | now apply le_ltb].
Qed.

(** What the pass leaves at a pixel of the ramp zone. *)
Lemma threshold_ramp_zone (w h : nat) (tol fth : Q) (d : list Z) (p : nat)
    (bg : Q * Q * Q) (r g b a : Z) :
  background w h d = Some bg ->
  pixel d p = Some (r, g, b, a) ->
  Specified.ramp_zone (distance bg r g b) tol ->
  pixel (threshold w h tol fth d) p
  = Some (r, g, b, ToUint8Clamp (ramp (distance bg r g b) tol fth)).
Proof.
  intros Hbg Hp Hz. destruct (ramp_zone_ltb _ _ Hz) as [Hin Hout].
  rewrite (threshold_pixel _ _ _ _ _ _ _ _ _ _ _ Hbg Hp).
  rewrite Hin. unfold new_alpha. now rewrite Hout.
Qed.

(** C1, as the code has it: in the ramp zone the alpha stored is the byte
    (nearest integer, a tie to the even one) of
    [clamp(0, 255, (dist / tolerance) * 255 * (1 / (feather || 1)))]; the
    divisor is the feather itself unless it is 0, and is [max(feather, 1)]
    when the feather is 0 or at least 1. *)
Theorem ramp_zone_alpha (img : ImageData) (tol fth : Q) (p : nat)
    (bg : Q * Q * Q) (r g b a : Z) :
  0 < width img -> 0 < height img ->
  background (width img) (height img) (data img) = Some bg ->
  pixel (data img) p = Some (r, g, b, a) ->
  Specified.ramp_zone (distance bg r g b) tol ->
  exists out,
    processInstant true true img tol fth = ([onResult out], Returns) /\
    pixel (data out) p
    = Some (r, g, b,
            ToUint8Clamp
              (Specified.ramp_over (or_else fth 1) (distance bg r g b) tol)) /\
    ((fth == 0 \/ 1 <= fth)%Q ->
     pixel (data out) p
     = Some (r, g, b,
             ToUint8Clamp (Specified.spec_ramp (distance bg r g b) tol fth))).
Proof.
  intros Hw Hh Hbg Hp Hz. eexists.
  split; [now apply processInstant_runs|]. cbn [data].
  rewrite (threshold_ramp_zone _ _ _ _ _ _ _ _ _ _ _ Hbg Hp Hz).
  split; [reflexivity|].
  intros Hf. unfold Specified.spec_ramp. now rewrite <- (or_else_max fth Hf).
Qed.

(** The ramp in real numbers, and the byte stored for it: the integer
    nearest to [clamp(0, 255, (dist / tol) * 255 * (1 / (fth || 1)))], the
    even one when two are as near. *)
Lemma or_else_nonzero (a : Q) : ~ (or_else a 1 == 0)%Q.
Proof.
  unfold or_else. destruct (Qeq_bool a 0) eqn:E.
  - intros H. discriminate H.
  - now apply Qeq_bool_neq.
Qed.

Lemma toR_ramp (dist : root) (tol fth : Q) :
  ~ (tol == 0)%Q ->
  toR (ramp dist tol fth)
  = Rmax 0 (Rmin 255 (toR dist / Q2R tol * 255 * (1 / Q2R (or_else fth 1))))%R.
Proof.
  intros Htol. unfold ramp.
  rewrite toR_max, toR_min, !toR_of_Q, !toR_mul, toR_div by assumption.
  rewrite RMicromega.Q2R_0, (Q2R_small 255).
  rewrite Q2R_div by apply or_else_nonzero.
  now rewrite RMicromega.Q2R_1.
Qed.

Lemma ramp_alpha_nearest (dist : root) (tol fth : Q) :
  ~ (tol == 0)%Q ->
  let c :=
    Rmax 0 (Rmin 255 (toR dist / Q2R tol * 255 * (1 / Q2R (or_else fth 1))))%R in
  let z := ToUint8Clamp (ramp dist tol fth) in
  (Rabs (IZR z - c) <= 1 / 2)%R /\
  (Rabs (IZR z - c) = (1 / 2)%R -> Z.even z = true).
Proof.
  intros Htol c z.
  pose proof (ToUint8Clamp_nearest (ramp dist tol fth)) as H. cbv zeta in H.
  rewrite (toR_ramp dist tol fth Htol) in H. fold c in H.
  assert (Hc : (0 <= c <= 255)%R).
  { unfold c. split; [apply Rmax_l|].
    apply Rmax_lub; [lra | apply Rmin_l]. }
  rewrite (Rmin_right 255 c), (Rmax_right 0 c) in H by lra.
  exact H.
Qed.

Lemma strip_zone :
  Specified.ramp_zone (distance (0 / 4, 0 / 4, 0 / 4)%Q 24 0 0) 30.
Proof. split; [now apply le_ltb | now apply lt_ltb]. Qed.

Lemma ramp_zone_alpha_witness :
  exists out,
    processInstant true true (Specified.strip 255) 30 2 = ([onResult out], Returns) /\
    pixel (data out) 1 = Some (24, 0, 0, 102)%Z.
Proof.
  destruct (ramp_zone_alpha (Specified.strip 255) 30 2 1 (0 / 4, 0 / 4, 0 / 4)%Q
              24 0 0 255) as (out & Hrun & Hpx & _).
  - cbn. lia.
  - cbn. lia.
  - reflexivity.
  - reflexivity.
  - apply strip_zone.
  - exists out. split; [exact Hrun | exact Hpx].
Defined.

(** C1 as specified fails for a feather between 0 and 1: with feather 0.5
    the pixel of the strip at distance 24 (tolerance 30) gets alpha 255,
    not the byte 204 of the specified ramp. *)
Lemma ramp_alpha_half_feather :
  ~ Specified.ramp_alpha_as_specified (Specified.strip 255) 30 (1 # 2) 1.
Proof.
  intros H.
  destruct (H (0 / 4, 0 / 4, 0 / 4)%Q 24%Z 0%Z 0%Z 255%Z eq_refl eq_refl strip_zone)
    as (out & Hrun & Hpx).
  vm_compute in Hrun. injection Hrun as <-.
  vm_compute in Hpx. discriminate Hpx.
Qed.

(** *** The feather *)

Lemma Math_min_mono (a x y : root) :
  (sq x <= sq y -> sq (Math_min a x) <= sq (Math_min a y))%Q.
Proof.
  intros H. unfold Math_min.
  destruct (ltb x a) eqn:Ex, (ltb y a) eqn:Ey; trivial.
  - apply ltb_lt in Ex. lra.
  - apply ltb_ge in Ex. apply ltb_lt in Ey. lra.
  - apply Qle_refl.
Qed.

Lemma Math_max_mono (a x y : root) :
  (sq x <= sq y -> sq (Math_max a x) <= sq (Math_max a y))%Q.
Proof.
  intros H. unfold Math_max.
  destruct (ltb a x) eqn:Ex, (ltb a y) eqn:Ey; trivial.
  - apply ltb_lt in Ex. apply ltb_ge in Ey. lra.
  - apply ltb_lt in Ey. lra.
  - apply Qle_refl.
Qed.

(** A larger feather gives a smaller ramp, from a positive feather on. *)
Lemma ramp_antitone (dist : root) (tol f1 f2 : Q) :
  (0 <= sq dist -> 0 < tol -> 0 < f1 -> f1 < f2 ->
   sq (ramp dist tol f2) <= sq (ramp dist tol f1))%Q.
Proof.
  intros Hd Htol Hf1 Hf12.
  assert (Hf2 : (0 < f2)%Q) by lra.
  unfold ramp. apply Math_max_mono, Math_min_mono.
  unfold mul, div, or_else. cbn [sq].
  assert (E1 : Qeq_bool f1 0 = false).
  { destruct (Qeq_bool f1 0) eqn:E; [|reflexivity].
    apply Qeq_bool_iff in E. exfalso. lra. }
  assert (E2 : Qeq_bool f2 0 = false).
  { destruct (Qeq_bool f2 0) eqn:E; [|reflexivity].
    apply Qeq_bool_iff in E. exfalso. lra. }
  rewrite E1, E2.
  rewrite <- !(Qmult_comm (ssq (1 / _))).
  assert (HA : (0 <= sq dist / ssq tol * ssq 255)%Q).
  { apply Qmult_le_0_compat; [|discriminate].
    apply Qmult_le_0_compat; [exact Hd|].
    apply Qlt_le_weak, Qinv_lt_0_compat, ssq_pos, Htol. }
  apply Qmult_le_compat_r; [|exact HA].
  apply ssq_le. unfold Qdiv. rewrite !Qmult_1_l.
  apply Qlt_le_weak. now apply -> Qinv_lt_contravar.
Qed.

(** C2, as the code has it: for two feathers [0 < f1 < f2] the alpha of a
    ramp-zone pixel under [f2] is at most its alpha under [f1]: a larger
    feather never raises it. *)
Theorem feather_never_raises_ramp_alpha (img : ImageData) (tol f1 f2 : Q)
    (p : nat) (bg : Q * Q * Q) (r g b a : Z) :
  0 < width img -> 0 < height img ->
  (0 < f1)%Q -> (f1 < f2)%Q ->
  background (width img) (height img) (data img) = Some bg ->
  pixel (data img) p = Some (r, g, b, a) ->
  Specified.ramp_zone (distance bg r g b) tol ->
  exists out1 out2 a1 a2,
    processInstant true true img tol f1 = ([onResult out1], Returns) /\
    processInstant true true img tol f2 = ([onResult out2], Returns) /\
    pixel (data out1) p = Some (r, g, b, a1) /\
    pixel (data out2) p = Some (r, g, b, a2) /\
    (a2 <= a1)%Z.
Proof.
  intros Hw Hh Hf1 Hf12 Hbg Hp Hz.
  do 4 eexists.
  split; [now apply processInstant_runs|].
  split; [now apply processInstant_runs|]. cbn [data].
  rewrite !(threshold_ramp_zone _ _ _ _ _ _ _ _ _ _ _ Hbg Hp Hz).
  split; [reflexivity|]. split; [reflexivity|].
  apply ToUint8Clamp_mono, ramp_antitone; trivial.
  - apply distance_nonneg.
  - destruct (ramp_zone_ltb _ _ Hz) as [Hin _]. apply ltb_lt in Hin.
    pose proof (distance_nonneg bg r g b) as Hd. cbn [of_Q sq] in Hin.
    destruct (Qlt_le_dec 0 tol) as [Hpos|Hneg]; [exact Hpos|exfalso].
    pose proof (ssq_le_0 tol Hneg). lra.
Qed.

Lemma feather_never_raises_ramp_alpha_witness :
  exists out1 out2,
    processInstant true true (Specified.strip 255) 30 1 = ([onResult out1], Returns) /\
    processInstant true true (Specified.strip 255) 30 2 = ([onResult out2], Returns) /\
    pixel (data out1) 1 = Some (24, 0, 0, 204)%Z /\
    pixel (data out2) 1 = Some (24, 0, 0, 102)%Z.
Proof.
  destruct (feather_never_raises_ramp_alpha (Specified.strip 255) 30 1 2 1
              (0 / 4, 0 / 4, 0 / 4)%Q 24 0 0 255)
    as (out1 & out2 & a1 & a2 & Hrun1 & Hrun2 & Hp1 & Hp2 & _).
  - cbn. lia.
  - cbn. lia.
  - reflexivity.
  - reflexivity.
  - reflexivity.
  - reflexivity.
  - apply strip_zone.
  - exists out1, out2.
    split; [exact Hrun1|]. split; [exact Hrun2|].
    vm_compute in Hrun1. injection Hrun1 as <-.
    vm_compute in Hrun2. injection Hrun2 as <-.
    split; reflexivity.
Defined.

(** C2 as specified fails: from feather 1 to feather 2 the alpha of the
    ramp-zone pixel of the strip falls from 204 to 102. *)
Lemma softening_raises_alpha_refuted :
  ~ Specified.softening_as_specified (Specified.strip 255) 30 1 2 1.
Proof.
  intros H.
  assert (Hle : (204 <= 102)%Z).
  { apply (H (0 / 4, 0 / 4, 0 / 4)%Q 24%Z 0%Z 0%Z 255%Z
             (mkImageData 3 1 [0; 0; 0; 0; 24; 0; 0; 204; 0; 0; 0; 0]%Z)
             (mkImageData 3 1 [0; 0; 0; 0; 24; 0; 0; 102; 0; 0; 0; 0]%Z));
      try reflexivity.
    apply strip_zone. }
  lia.
Qed.

(** *** Raising and lowering alpha *)

(** C3, as the code has it: the output alpha of a pixel is at most its
    source alpha when the pixel is opaque in the source (alpha 255) or lies
    outside the ramp zone; there it is 0 or the source alpha. *)
Theorem alpha_lowered_outside_ramp_or_opaque (img : ImageData) (tol fth : Q)
    (p : nat) (bg : Q * Q * Q) (r g b a : Z) :
  well_formed img -> 0 < width img -> 0 < height img ->
  background (width img) (height img) (data img) = Some bg ->
  pixel (data img) p = Some (r, g, b, a) ->
  a = 255%Z \/ ~ Specified.ramp_zone (distance bg r g b) tol ->
  exists out a',
    processInstant true true img tol fth = ([onResult out], Returns) /\
    pixel (data out) p = Some (r, g, b, a') /\
    (a' <= a)%Z.
Proof.
  intros Hwf Hw Hh Hbg Hp Hor.
  destruct (pixel_bytes _ _ _ _ _ _ Hwf Hp) as (_ & _ & _ & Ha).
  do 2 eexists. split; [now apply processInstant_runs|]. cbn [data].
  rewrite (threshold_pixel _ _ _ _ _ _ _ _ _ _ _ Hbg Hp).
  split; [reflexivity|].
  destruct (ltb (distance bg r g b) (of_Q tol)) eqn:Hin; [|lia].
  unfold new_alpha.
  destruct (ltb (distance bg r g b) (of_Q (tol / (3 # 2))%Q)) eqn:Hout.
  - unfold byte in Ha. lia.
  - pose proof (ToUint8Clamp_range (ramp (distance bg r g b) tol fth)) as Hr.
    destruct Hor as [->|Hn]; [lia|].
    exfalso. apply Hn. split; [now apply le_ltb | now apply lt_ltb].
Qed.

Lemma strip_well_formed (a : Z) : (0 <= a <= 255)%Z -> well_formed (Specified.strip a).
Proof.
  intros Ha. split; [reflexivity|].
  unfold Specified.strip. cbn [data].
  repeat (apply Forall_cons; split; [unfold byte; lia|]). apply Forall_nil. trivial.
Qed.

Lemma alpha_lowered_outside_ramp_or_opaque_witness :
  exists out,
    processInstant true true (Specified.strip 255) 30 1 = ([onResult out], Returns) /\
    pixel (data out) 1 = Some (24, 0, 0, 204)%Z.
Proof.
  destruct (alpha_lowered_outside_ramp_or_opaque (Specified.strip 255) 30 1 1
              (0 / 4, 0 / 4, 0 / 4)%Q 24 0 0 255)
    as (out & a' & Hrun & Hpx & _).
  - apply strip_well_formed. lia.
  - cbn. lia.
  - cbn. lia.
  - reflexivity.
  - reflexivity.
  - left. reflexivity.
  - exists out. split; [exact Hrun|].
    vm_compute in Hrun. injection Hrun as <-. reflexivity.
Defined.

(** C3 as specified fails on a translucent pixel of the ramp zone: the
    pixel of the strip with source alpha 128 comes out with alpha 204. *)
Lemma alpha_raised_on_translucent_pixel :
  ~ Specified.alpha_lowered_as_specified (Specified.strip 128) 30 1 1.
Proof.
  intros H.
  assert (Hle : (204 <= 128)%Z).
  { apply (H 24%Z 0%Z 0%Z 128%Z
             (mkImageData 3 1 [0; 0; 0; 0; 24; 0; 0; 204; 0; 0; 0; 0]%Z)
             24%Z 0%Z 0%Z 204%Z); reflexivity. }
  lia.
Qed.

(** *** Malformed buffers *)

(** C6, as the code has it: the engine never reports an error through
    [onError]; without a width or a height it gives no output, the read of
    the canvas pixels ending the call with an IndexSizeError; with both it
    gives an output whatever the length of the pixel data. *)
Theorem no_InvalidImage_report (img : ImageData) (tol fth : Q) (canvas ctx : bool) :
  (forall error,
     ~ In (onError error) (fst (processInstant canvas ctx img tol fth))) /\
  (width img = 0 \/ height img = 0 ->
   processInstant true true img tol fth = ([], Throws_IndexSizeError)) /\
  (0 < width img -> 0 < height img ->
   exists out, processInstant true true img tol fth = ([onResult out], Returns)).
Proof.
  split; [|split].
  - intros error. unfold processInstant.
    destruct (negb canvas), (negb ctx),
      ((width img =? 0) || (height img =? 0))%bool; cbn; intuition discriminate.
  - intros Hz. unfold processInstant. cbn [negb].
    destruct (Nat.eqb_spec (width img) 0) as [E|Hw]; [reflexivity|].
    destruct (Nat.eqb_spec (height img) 0) as [E|Hh]; [reflexivity|].
    exfalso. lia.
  - intros Hw Hh. eexists. now apply processInstant_runs.
Qed.

(** C6 as specified fails: for the image without pixels no error is
    reported, an IndexSizeError escapes the call instead. *)
Lemma empty_image_not_reported :
  ~ Specified.InvalidImage_as_specified Specified.empty_image 30 1.
Proof.
  intros H. destruct H as [[error Hin] _].
  - left. reflexivity.
  - cbn in Hin. exact Hin.
Qed.

End ExpressClaims.

(** ** The job orchestration against its specification *)

Module JobClaims.
Import Browser SpecifiedJob.

(** *** Output names *)

Lemma split_dot_0_basename (s : string) :
  (count_dots s <= 1)%nat -> split_dot_0 s = basename s.
Proof.
  induction s as [|c rest IH]; intros Hn; cbn [split_dot_0 basename]; trivial.
  cbn [count_dots] in Hn.
  destruct (Ascii.eqb c ".") eqn:Ec; cbn [andb orb].
  - assert (Hnone : has_dot rest = false).
    { assert (H0 : count_dots rest = 0%nat) by lia. clear - H0.
      induction rest as [|c' r IHr]; trivial.
      cbn [count_dots] in H0. cbn [has_dot].
      destruct (Ascii.eqb c' "."); [cbn in H0; lia|].
      cbn [orb]. apply IHr. cbn in H0. lia. }
    now rewrite Hnone.
  - rewrite IH; [reflexivity|]. cbn in Hn. lia.
Qed.

(** C10, as the code has it: on every path that makes a result (the Deep
    engine of either [App] resolving, a file submitted in express mode) the
    suggested name is the part of the file name before its first dot
    followed by [_transparent.png]; this is the specified basename when the
    name has at most one dot. *)
Theorem output_name_before_first_dot (f : File) :
  (forall s s1 p,
     AppSingle.processFile f s = (s1, Some p) ->
     exists r,
       AppSingle.result (AppSingle.processFile_resolved p s1) = Some r /\
       result_name r = String.append (split_dot_0 (name f)) "_transparent.png") /\
  (forall s s1 p,
     AppModes.removalMode s = AppModes.deep ->
     AppModes.handleFileChange (Some f) s = (s1, Some p) ->
     exists r,
       AppModes.result (AppModes.processFileDeep_resolved p s1) = Some r /\
       result_name r = String.append (split_dot_0 (name f)) "_transparent.png") /\
  (forall s,
     AppModes.removalMode s = AppModes.express ->
     exists r,
       AppModes.result (fst (AppModes.handleFileChange (Some f) s)) = Some r /\
       result_name r = String.append (split_dot_0 (name f)) "_transparent.png") /\
  ((count_dots (name f) <= 1)%nat ->
   String.append (split_dot_0 (name f)) "_transparent.png" = specified_name f).
Proof.
  repeat split.
  - intros s s1 p Hrun. unfold AppSingle.processFile in Hrun.
    destruct (negb (String.prefix "image/" (type f))); [discriminate|].
    destruct (15 * 1024 * 1024 <? size f); [discriminate|].
    cbn in Hrun. injection Hrun as <- <-.
    eexists. split; reflexivity.
  - intros s s1 p Hmode Hrun. cbn in Hrun. rewrite Hmode in Hrun.
    cbn in Hrun. injection Hrun as <- <-.
    eexists. split; reflexivity.
  - intros s Hmode. cbn. rewrite Hmode. cbn.
    eexists. split; reflexivity.
  - intros Hn. unfold specified_name. now rewrite split_dot_0_basename.
Qed.

(** C10 as specified fails on a name with two dots: [my.photo.jpg] gives
    [my_transparent.png], not [my.photo_transparent.png]. *)
Lemma two_dots_name_cut_at_first_dot : ~ output_name_as_specified two_dots.
Proof.
  intros H.
  destruct (H _ _ eq_refl) as (r & Hr & Hname).
  cbn in Hr. injection Hr as <-. discriminate Hname.
Qed.

(** *** Refused files *)

(** C4, as the code has it: a file whose MIME type does not start with
    [image/] is refused by [processFile] of the single-engine [App] with an
    error message, and nothing else changes: no job starts, the engine is
    not called, no result and no object URL are made. *)
Theorem non_image_file_refused (f : File) (s : AppSingle.App) :
  String.prefix "image/" (type f) = false ->
  exists s',
    AppSingle.processFile f s = (s', None) /\
    AppSingle.error s'
    = Some "Please upload a valid image file (PNG, JPG, or WebP)."%string /\
    AppSingle.isProcessing s' = AppSingle.isProcessing s /\
    AppSingle.progress s' = AppSingle.progress s /\
    AppSingle.status s' = AppSingle.status s /\
    AppSingle.result s' = AppSingle.result s /\
    AppSingle.engine_calls s' = AppSingle.engine_calls s /\
    AppSingle.urls s' = AppSingle.urls s.
Proof.
  intros Htype. eexists. unfold AppSingle.processFile. rewrite Htype.
  cbn [negb]. repeat split.
Qed.

Lemma non_image_file_refused_witness :
  exists s',
    AppSingle.processFile notes AppSingle.initial = (s', None) /\
    AppSingle.isProcessing s' = false /\
    AppSingle.result s' = None /\
    AppSingle.engine_calls s' = [] /\
    AppSingle.urls s' = no_urls.
Proof.
  destruct (non_image_file_refused notes AppSingle.initial eq_refl)
    as (s' & Hrun & _ & Hp & _ & _ & Hr & He & Hu).
  exists s'. repeat split; assumption.
Defined.

(** C4 as specified fails on an empty file of an image type: the job
    starts. *)
Lemma empty_image_file_accepted : ~ submit_refused_as_specified empty_png.
Proof.
  intros H. destruct H as (s' & Hrun & _).
  - left. reflexivity.
  - discriminate Hrun.
Qed.

(** *** Object URLs *)

(** After a run of the Deep engine that resolves, [reset] releases both
    object URLs of the job, each once. *)
Lemma reset_releases_after_success (f : File) :
  let '(s1, p) := AppModes.processFileDeep f (AppModes.initial AppModes.deep) in
  let s2 := AppModes.processFileDeep_resolved p s1 in
  let s3 := AppModes.reset s2 in
  live (AppModes.urls s2) = {[0%nat; 1%nat]} /\
  live (AppModes.urls s3) = ∅ /\
  times_revoked (blob_url 0) (AppModes.urls s3) = 1%nat /\
  times_revoked (blob_url 1) (AppModes.urls s3) = 1%nat.
Proof. cbn. repeat split; reflexivity. Qed.

(** C5 fails on the code: when the Deep engine rejects, the object URL
    made for the source file is alive, the job has no result to find it
    by, and [reset] releases nothing: the handle is never revoked. *)
Theorem deep_failure_leaks_source_url (f : File) :
  let '(s1, p) := AppModes.handleFileChange (Some f) (AppModes.initial AppModes.deep) in
  match p with
  | None => False
  | Some p =>
      let s2 := AppModes.processFileDeep_rejected p s1 in
      let s3 := AppModes.reset s2 in
      pending_originalUrl p = blob_url 0 /\
      AppModes.result s2 = None /\
      live (AppModes.urls s3) = {[0%nat]} /\
      times_revoked (blob_url 0) (AppModes.urls s3) = 0%nat
  end.
Proof. cbn. repeat split; reflexivity. Qed.

(** The same in the single-engine [App], where a second file can then be
    submitted: the first source URL stays alive through the second job and
    its [reset]. *)
Lemma failure_then_new_job_keeps_leak (f f' : File) :
  String.prefix "image/" (type f) = true -> (size f <= 15 * 1024 * 1024)%Z ->
  String.prefix "image/" (type f') = true -> (size f' <= 15 * 1024 * 1024)%Z ->
  exists s1 p s3 p',
    AppSingle.processFile f AppSingle.initial = (s1, Some p) /\
    AppSingle.processFile f' (AppSingle.processFile_rejected p s1) = (s3, Some p') /\
    let s5 := AppSingle.reset (AppSingle.processFile_resolved p' s3) in
    live (AppSingle.urls s5) = {[0%nat]} /\
    times_revoked (blob_url 0) (AppSingle.urls s5) = 0%nat.
Proof.
  intros Ht Hs Ht' Hs'.
  assert (E : (15 * 1024 * 1024 <? size f)%Z = false) by (apply Z.ltb_ge; lia).
  assert (E' : (15 * 1024 * 1024 <? size f')%Z = false) by (apply Z.ltb_ge; lia).
  unfold AppSingle.processFile. rewrite Ht, Ht', E, E'. cbn.
  do 4 eexists. split; [reflexivity|]. split; [reflexivity|].
  cbn. split; reflexivity.
Qed.

(** The [App] with the two modes checks nothing on the file it is given:
    in deep mode any file starts the engine. *)
Lemma modes_app_starts_on_any_file (f : File) (s : AppModes.App) :
  AppModes.removalMode s = AppModes.deep ->
  exists s' p,
    AppModes.handleFileChange (Some f) s = (s', Some p) /\
    AppModes.isProcessing s' = true /\
    AppModes.engine_calls s' = AppModes.engine_calls s ++ [f].
Proof.
  intros Hmode. cbn. rewrite Hmode. cbn.
  do 2 eexists. repeat split.
Qed.

End JobClaims.

(** ** More on the Express engine *)

Module ExpressMore.
Import Num Express NumFacts NumReal ExpressFacts ExpressClaims.
Local Open Scope nat_scope.

(** *** Bytes in, bytes out *)

Lemma new_alpha_byte (dist : root) (tol fth : Q) : byte (new_alpha dist tol fth).
Proof.
  unfold new_alpha, byte. destruct (ltb dist _); [lia|].
  apply ToUint8Clamp_range.
Qed.

Lemma body_bytes (bg : estimate) (tol fth : Q) (i : nat) (d : list Z) :
  Forall byte d -> Forall byte (body bg tol fth i d).
Proof.
  intros Hd. unfold body.
  destruct bg as [c|], (d !! i), (d !! (i + 1)), (d !! (i + 2)); trivial.
  destruct (ltb _ _); trivial.
  apply Forall_insert; [exact Hd | apply new_alpha_byte].
Qed.

Lemma loop_bytes (bg : estimate) (tol fth : Q) (fuel i : nat) (d : list Z) :
  Forall byte d -> Forall byte (loop fuel bg tol fth i d).
Proof.
  revert i d. induction fuel as [|fuel IH]; intros i d Hd; cbn [loop]; trivial.
  destruct (i <? length d); trivial. now apply IH, body_bytes.
Qed.

(** The output of the engine is an image like its input: same size, as
    many entries, every entry a byte again, whatever the sliders. *)
Theorem output_well_formed (img : ImageData) (tol fth : Q) :
  well_formed img -> 0 < width img -> 0 < height img ->
  exists out,
    processInstant true true img tol fth = ([onResult out], Returns) /\
    well_formed out.
Proof.
  intros [Hlen Hb] Hw Hh. eexists. split; [now apply processInstant_runs|].
  split; cbn [width height data].
  - now rewrite threshold_length.
  - now apply loop_bytes.
Qed.

Lemma output_well_formed_witness :
  exists out,
    processInstant true true Specified.grey2x2 30 2 = ([onResult out], Returns) /\
    well_formed out.
Proof.
  apply (output_well_formed Specified.grey2x2 30 2).
  - split; [reflexivity|]. unfold Specified.grey2x2. cbn [data].
    repeat (apply Forall_cons; split; [unfold byte; lia|]). apply Forall_nil. trivial.
  - cbn. lia.
  - cbn. lia.
Defined.

(** *** The cleared zone *)

(** Whatever the corners look like: with a positive tolerance a pixel
    nearer than [tolerance / 1.5] to the estimate comes out with alpha 0
    and its colour. *)
Theorem near_pixel_alpha_zero (img : ImageData) (tol fth : Q) (p : nat)
    (bg : Q * Q * Q) (r g b a : Z) :
  0 < width img -> 0 < height img -> (0 < tol)%Q ->
  background (width img) (height img) (data img) = Some bg ->
  pixel (data img) p = Some (r, g, b, a) ->
  lt (distance bg r g b) (of_Q (tol / (3 # 2))%Q) ->
  exists out,
    processInstant true true img tol fth = ([onResult out], Returns) /\
    pixel (data out) p = Some (r, g, b, 0%Z).
Proof.
  intros Hw Hh Htol Hbg Hp Hnear. eexists.
  split; [now apply processInstant_runs|]. cbn [data].
  rewrite (threshold_pixel _ _ _ _ _ _ _ _ _ _ _ Hbg Hp).
  apply lt_ltb in Hnear.
  assert (Hin : ltb (distance bg r g b) (of_Q tol) = true).
  { apply ltb_lt. apply ltb_lt in Hnear.
    eapply Qlt_trans; [exact Hnear|]. apply ssq_lt, two_thirds, Htol. }
  rewrite Hin. unfold new_alpha. now rewrite Hnear.
Qed.

Lemma near_pixel_alpha_zero_witness :
  exists out,
    processInstant true true (Specified.strip 255) 60 2 = ([onResult out], Returns) /\
    pixel (data out) 1 = Some (24, 0, 0, 0)%Z.
Proof.
  apply (near_pixel_alpha_zero (Specified.strip 255) 60 2 1
           (0 / 4, 0 / 4, 0 / 4)%Q 24 0 0 255).
  - cbn. lia.
  - cbn. lia.
  - reflexivity.
  - reflexivity.
  - reflexivity.
  - now apply lt_ltb.
Defined.

(** *** A tolerance that is not positive *)

Lemma body_nonpositive_tolerance (bg : estimate) (tol fth : Q) (i : nat) (d : list Z) :
  (tol <= 0)%Q -> body bg tol fth i d = d.
Proof.
  intros Htol. unfold body.
  destruct bg as [c|], (d !! i), (d !! (i + 1)), (d !! (i + 2)); trivial.
  assert (Hout : ltb (distance c z z0 z1) (of_Q tol) = false).
  { apply ltb_ge. cbn [of_Q sq].
    pose proof (distance_nonneg c z z0 z1). pose proof (ssq_le_0 tol Htol).
    lra. }
  now rewrite Hout.
Qed.

(** With a tolerance of 0 or less no distance is below it: the output is
    the input, entry by entry. *)
Theorem nonpositive_tolerance_changes_nothing (img : ImageData) (tol fth : Q) :
  0 < width img -> 0 < height img -> (tol <= 0)%Q ->
  processInstant true true img tol fth
  = ([onResult (mkImageData (width img) (height img) (data img))], Returns).
Proof.
  intros Hw Hh Htol. rewrite processInstant_runs by assumption.
  do 3 f_equal. unfold threshold.
  generalize (background (width img) (height img) (data img)) as bg.
  generalize 0 as i. generalize (data img) at 2 3 as d.
  generalize (length (data img)) as fuel.
  induction fuel as [|fuel IH]; intros d i bg; cbn [loop]; trivial.
  destruct (i <? length d); trivial.
  rewrite body_nonpositive_tolerance by assumption. apply IH.
Qed.

Lemma nonpositive_tolerance_changes_nothing_witness :
  processInstant true true (Specified.strip 128) 0 2
  = ([onResult (Specified.strip 128)], Returns).
Proof.
  apply (nonpositive_tolerance_changes_nothing (Specified.strip 128) 0 2).
  - cbn. lia.
  - cbn. lia.
  - discriminate.
Defined.

(** *** Raising the tolerance *)

Lemma or_else_pos (fth : Q) : (0 <= fth -> 0 < or_else fth 1)%Q.
Proof.
  intros H. unfold or_else. destruct (Qeq_bool fth 0) eqn:E; [reflexivity|].
  apply Qeq_bool_neq in E. destruct (Qle_lt_or_eq _ _ H) as [Hlt|Heq]; [exact Hlt|].
  exfalso. apply E. now symmetry.
Qed.

Lemma Qinv_le_contravar (a b : Q) : (0 < a -> a <= b -> / b <= / a)%Q.
Proof.
  intros Ha Hab. destruct (Qle_lt_or_eq _ _ Hab) as [Hlt|Heq].
  - apply Qlt_le_weak. apply -> Qinv_lt_contravar; trivial. lra.
  - rewrite Heq. apply Qle_refl.
Qed.

(** A larger tolerance gives a smaller ramp. *)
Lemma ramp_antitone_tol (dist : root) (t1 t2 fth : Q) :
  (0 <= sq dist -> 0 < t1 -> t1 <= t2 -> 0 <= fth ->
   sq (ramp dist t2 fth) <= sq (ramp dist t1 fth))%Q.
Proof.
  intros Hd Ht1 Ht12 Hf.
  unfold ramp. apply Math_max_mono, Math_min_mono.
  unfold mul, div. cbn [sq].
  pose proof (ssq_pos _ (or_else_pos fth Hf)) as Hg.
  assert (Hk : (0 <= ssq (1 / or_else fth 1))%Q).
  { apply Qlt_le_weak, ssq_pos. unfold Qdiv. rewrite Qmult_1_l.
    apply Qinv_lt_0_compat, or_else_pos, Hf. }
  apply Qmult_le_compat_r; [|exact Hk].
  apply Qmult_le_compat_r; [|discriminate].
  unfold Qdiv. rewrite !(Qmult_comm (sq dist)).
  apply Qmult_le_compat_r; [|exact Hd].
  apply Qinv_le_contravar; [now apply ssq_pos | now apply ssq_le].
Qed.

(** For a pixel that is opaque in the source, a larger tolerance never
    gives a larger alpha: raising the slider only ever clears more. *)
Theorem opaque_alpha_antitone_in_tolerance (img : ImageData) (t1 t2 fth : Q)
    (p : nat) (bg : Q * Q * Q) (r g b : Z) :
  0 < width img -> 0 < height img ->
  (0 < t1)%Q -> (t1 <= t2)%Q -> (0 <= fth)%Q ->
  background (width img) (height img) (data img) = Some bg ->
  pixel (data img) p = Some (r, g, b, 255%Z) ->
  exists out1 out2 a1 a2,
    processInstant true true img t1 fth = ([onResult out1], Returns) /\
    processInstant true true img t2 fth = ([onResult out2], Returns) /\
    pixel (data out1) p = Some (r, g, b, a1) /\
    pixel (data out2) p = Some (r, g, b, a2) /\
    (a2 <= a1)%Z.
Proof.
  intros Hw Hh Ht1 Ht12 Hf Hbg Hp.
  do 4 eexists.
  split; [now apply processInstant_runs|].
  split; [now apply processInstant_runs|]. cbn [data].
  rewrite !(threshold_pixel _ _ _ _ _ _ _ _ _ _ _ Hbg Hp).
  split; [reflexivity|]. split; [reflexivity|].
  set (dist := distance bg r g b).
  pose proof (distance_nonneg bg r g b) as Hd. fold dist in Hd.
  pose proof (new_alpha_byte dist t1 fth) as B1.
  pose proof (new_alpha_byte dist t2 fth) as B2. unfold byte in B1, B2.
  assert (Hs12 : (ssq t1 <= ssq t2)%Q) by now apply ssq_le.
  assert (Hthird : (ssq (t1 / (3 # 2)) <= ssq (t2 / (3 # 2)))%Q).
  { apply ssq_le. unfold Qdiv. change (/ (3 # 2))%Q with (2 # 3)%Q. lra. }
  destruct (ltb dist (of_Q t1)) eqn:E1, (ltb dist (of_Q t2)) eqn:E2; try lia.
  - unfold new_alpha.
    destruct (ltb dist (of_Q (t2 / (3 # 2)))) eqn:F2.
    + destruct (ltb dist (of_Q (t1 / (3 # 2)))); [lia|].
      apply ToUint8Clamp_range.
    + destruct (ltb dist (of_Q (t1 / (3 # 2)))) eqn:F1.
      * apply ltb_lt in F1. apply ltb_ge in F2. cbn [of_Q sq] in F1, F2.
        exfalso. lra.
      * now apply ToUint8Clamp_mono, ramp_antitone_tol.
  - apply ltb_lt in E1. apply ltb_ge in E2. cbn [of_Q sq] in E1, E2.
    exfalso. lra.
Qed.

Lemma opaque_alpha_antitone_in_tolerance_witness :
  exists out1 out2,
    processInstant true true (Specified.strip 255) 30 1 = ([onResult out1], Returns) /\
    processInstant true true (Specified.strip 255) 32 1 = ([onResult out2], Returns) /\
    pixel (data out1) 1 = Some (24, 0, 0, 204)%Z /\
    pixel (data out2) 1 = Some (24, 0, 0, 191)%Z.
Proof.
  destruct (opaque_alpha_antitone_in_tolerance (Specified.strip 255) 30 32 1 1
              (0 / 4, 0 / 4, 0 / 4)%Q 24 0 0)
    as (out1 & out2 & a1 & a2 & Hrun1 & Hrun2 & _).
  - cbn. lia.
  - cbn. lia.
  - reflexivity.
  - discriminate.
  - discriminate.
  - reflexivity.
  - reflexivity.
  - exists out1, out2.
    split; [exact Hrun1|]. split; [exact Hrun2|].
    vm_compute in Hrun1. injection Hrun1 as <-.
    vm_compute in Hrun2. injection Hrun2 as <-.
    split; reflexivity.
Defined.

(** *** The range of the ramp *)

Lemma ToUint8Clamp_clamped (x : root) :
  ToUint8Clamp (Math_max (of_Q 0) (Math_min (of_Q 255) x)) = ToUint8Clamp x.
Proof.
  unfold Math_min. destruct (ltb x (of_Q 255)) eqn:E.
  - unfold Math_max. destruct (ltb (of_Q 0) x) eqn:E0; trivial.
    apply ltb_ge in E0. rewrite (ToUint8Clamp_low x); [reflexivity|exact E0].
  - apply ltb_ge in E.
    rewrite (ToUint8Clamp_high x); [reflexivity|exact E].
Qed.

(** In the ramp zone, with a feather of 0 or more, the alpha stored lies
    between the bytes of [170 / (fth || 1)] and [255 / (fth || 1)]: from
    170 to 255 for a feather of 0 or 1.  The ramp does not start at 0. *)
Theorem ramp_zone_alpha_range (img : ImageData) (tol fth : Q) (p : nat)
    (bg : Q * Q * Q) (r g b a : Z) :
  0 < width img -> 0 < height img -> (0 <= fth)%Q ->
  background (width img) (height img) (data img) = Some bg ->
  pixel (data img) p = Some (r, g, b, a) ->
  Specified.ramp_zone (distance bg r g b) tol ->
  exists out a',
    processInstant true true img tol fth = ([onResult out], Returns) /\
    pixel (data out) p = Some (r, g, b, a') /\
    (ToUint8Clamp (of_Q (170 / or_else fth 1)) <= a'
     <= ToUint8Clamp (of_Q (255 / or_else fth 1)))%Z.
Proof.
  intros Hw Hh Hf Hbg Hp Hz. do 2 eexists.
  split; [now apply processInstant_runs|]. cbn [data].
  rewrite (threshold_ramp_zone _ _ _ _ _ _ _ _ _ _ _ Hbg Hp Hz).
  split; [reflexivity|].
  unfold ramp. rewrite ToUint8Clamp_clamped.
  destruct (ramp_zone_ltb _ _ Hz) as [Hin Hout].
  apply ltb_lt in Hin. apply ltb_ge in Hout.
  set (dist := distance bg r g b) in *.
  pose proof (distance_nonneg bg r g b) as Hd. fold dist in Hd.
  cbn [of_Q sq] in Hin, Hout.
  assert (Htol : (0 < tol)%Q).
  { destruct (Qlt_le_dec 0 tol) as [Hpos|Hneg]; [exact Hpos|exfalso].
    pose proof (ssq_le_0 tol Hneg). lra. }
  pose proof (ssq_pos tol Htol) as Hst.
  pose proof (or_else_pos fth Hf) as Hg.
  set (gq := or_else fth 1) in *.
  assert (Hne : ~ (gq == 0)%Q) by lra.
  assert (Hthird : (ssq (tol / (3 # 2)) == (4 # 9) * ssq tol)%Q).
  { rewrite !ssq_nonneg.
    - field.
    - now apply Qlt_le_weak.
    - apply Qlt_le_weak. unfold Qdiv. change (/ (3 # 2))%Q with (2 # 3)%Q. lra. }
  assert (Hu : ((4 # 9) <= sq dist / ssq tol <= 1)%Q).
  { split.
    - apply Qle_shift_div_l; [exact Hst|]. lra.
    - apply Qle_shift_div_r; [exact Hst|]. lra. }
  assert (Hinv : (0 < / gq)%Q) by now apply Qinv_lt_0_compat.
  assert (Hk : (ssq (1 / gq) == / gq * / gq)%Q).
  { rewrite ssq_nonneg; [field; exact Hne|].
    unfold Qdiv. rewrite Qmult_1_l. now apply Qlt_le_weak. }
  assert (H170 : (ssq (170 / gq) == 28900 * (/ gq * / gq))%Q).
  { rewrite ssq_nonneg; [field; exact Hne|].
    apply Qlt_le_weak. unfold Qdiv. apply Qmult_lt_0_compat; [reflexivity|exact Hinv]. }
  assert (H255 : (ssq (255 / gq) == 65025 * (/ gq * / gq))%Q).
  { rewrite ssq_nonneg; [field; exact Hne|].
    apply Qlt_le_weak. unfold Qdiv. apply Qmult_lt_0_compat; [reflexivity|exact Hinv]. }
  assert (Hkk : (0 < / gq * / gq)%Q) by now apply Qmult_lt_0_compat.
  split; apply ToUint8Clamp_mono; unfold mul, div; cbn [of_Q sq];
    rewrite ?H170, ?H255, Hk;
    change (ssq 255) with 65025%Q;
    revert Hu Hkk; generalize (sq dist / ssq tol)%Q (/ gq * / gq)%Q;
    intros u k [Hu1 Hu2] Hk0; nra.
Qed.

Lemma ramp_zone_alpha_range_witness :
  exists out a',
    processInstant true true (Specified.strip 255) 30 2 = ([onResult out], Returns) /\
    pixel (data out) 1 = Some (24, 0, 0, a')%Z /\
    (85 <= a' <= 128)%Z.
Proof.
  destruct (ramp_zone_alpha_range (Specified.strip 255) 30 2 1
              (0 / 4, 0 / 4, 0 / 4)%Q 24 0 0 255)
    as (out & a' & Hrun & Hpx & Hrange).
  - cbn. lia.
  - cbn. lia.
  - discriminate.
  - reflexivity.
  - reflexivity.
  - apply strip_zone.
  - exists out, a'. split; [exact Hrun|]. split; [exact Hpx|]. exact Hrange.
Defined.

(** *** The ramp in real numbers *)

(** At a pixel of the ramp zone the alpha stored is the integer nearest to
    [clamp(0, 255, (dist / tol) * 255 * (1 / (fth || 1)))], where [dist] is
    the square root of the sum of the three squared channel differences;
    of two integers as near it is the even one. *)
Theorem ramp_zone_alpha_is_nearest_integer (img : ImageData) (tol fth : Q)
    (p : nat) (bgR bgG bgB : Q) (r g b a : Z) :
  0 < width img -> 0 < height img ->
  background (width img) (height img) (data img) = Some (bgR, bgG, bgB) ->
  pixel (data img) p = Some (r, g, b, a) ->
  Specified.ramp_zone (distance (bgR, bgG, bgB) r g b) tol ->
  exists out a',
    processInstant true true img tol fth = ([onResult out], Returns) /\
    pixel (data out) p = Some (r, g, b, a') /\
    let dist :=
      sqrt ((IZR r - Q2R bgR) * (IZR r - Q2R bgR) +
            (IZR g - Q2R bgG) * (IZR g - Q2R bgG) +
            (IZR b - Q2R bgB) * (IZR b - Q2R bgB))%R in
    let c :=
      Rmax 0 (Rmin 255 (dist / Q2R tol * 255 * (1 / Q2R (or_else fth 1))))%R in
    (Rabs (IZR a' - c) <= 1 / 2)%R /\
    (Rabs (IZR a' - c) = (1 / 2)%R -> Z.even a' = true).
Proof.
  intros Hw Hh Hbg Hp Hz. do 2 eexists.
  split; [now apply processInstant_runs|]. cbn [data].
  rewrite (threshold_ramp_zone _ _ _ _ _ _ _ _ _ _ _ Hbg Hp Hz).
  split; [reflexivity|].
  rewrite <- toR_distance. apply ramp_alpha_nearest.
  destruct (ramp_zone_ltb _ _ Hz) as [Hin _]. apply ltb_lt in Hin.
  pose proof (distance_nonneg (bgR, bgG, bgB) r g b) as Hd.
  cbn [of_Q sq] in Hin. intros H0.
  assert (Hs : (ssq tol == 0)%Q) by (unfold ssq; rewrite H0; reflexivity).
  lra.
Qed.

Lemma ramp_zone_alpha_is_nearest_integer_witness :
  exists out,
    processInstant true true (Specified.strip 255) 30 2 = ([onResult out], Returns) /\
    pixel (data out) 1 = Some (24, 0, 0, 102)%Z.
Proof.
  destruct (ramp_zone_alpha_is_nearest_integer (Specified.strip 255) 30 2 1
              (0 / 4) (0 / 4) (0 / 4) 24 0 0 255)%Q
    as (out & a' & Hrun & Hpx & _).
  - cbn. lia.
  - cbn. lia.
  - reflexivity.
  - reflexivity.
  - apply strip_zone.
  - exists out. split; [exact Hrun|].
    vm_compute in Hrun. injection Hrun as <-. reflexivity.
Defined.

End ExpressMore.

(** ** The [BackgroundRemover] component over time *)

Module RemoverFacts.
Import Num Express ExpressFacts Remover.
Local Open Scope nat_scope.

(** A call of the engine reports nothing or the pass over its image. *)
Lemma processInstant_calls (canvas ctx : bool) (img : ImageData) (tol fth : Q) :
  fst (processInstant canvas ctx img tol fth) = []
  \/ fst (processInstant canvas ctx img tol fth) = [pass img tol fth].
Proof.
  unfold processInstant, pass.
  destruct (negb canvas), (negb ctx),
    ((width img =? 0) || (height img =? 0))%bool; cbn; tauto.
Qed.

Lemma processInstant_pass (img : ImageData) (tol fth : Q) :
  0 < width img -> 0 < height img ->
  processInstant true true img tol fth = ([pass img tol fth], Returns).
Proof. apply processInstant_runs. Qed.

Lemma run_app (canvas ctx : bool) (evs1 evs2 : list event) (s : State) :
  run canvas ctx (evs1 ++ evs2) s
  = match run canvas ctx evs1 s with
    | (s', Returns) => run canvas ctx evs2 s'
    | (s', Throws_IndexSizeError) => (s', Throws_IndexSizeError)
    end.
Proof.
  revert s. induction evs1 as [|e evs1 IH]; intros s; cbn [app run].
  - reflexivity.
  - destruct (step canvas ctx e s) as [s' [|]]; [apply IH | reflexivity].
Qed.

(** *** No pass over a masked image *)

Section Known.
Variables (canvas ctx : bool) (known : ImageData -> Prop).

Lemma report_known (img : ImageData) (t f : Q) (s : State) :
  known img -> from_known known s ->
  Forall (fun r => exists img t f, known img /\ r = pass img t f)
    (reported s ++ fst (processInstant canvas ctx img t f)).
Proof.
  intros Hk [_ Hr]. apply Forall_app. split; [exact Hr|].
  destruct (processInstant_calls canvas ctx img t f) as [-> | ->].
  - apply Forall_nil. trivial.
  - apply Forall_cons. split; [|apply Forall_nil; trivial]. now exists img, t, f.
Qed.

Lemma adjust_known (s : State) :
  from_known known s -> from_known known (fst (adjust canvas ctx s)).
Proof.
  intros Hs. unfold adjust.
  destruct (originalImageRef s) as [img|] eqn:E; [|exact Hs].
  pose proof (report_known img (tolerance s) (feather s) s (proj1 Hs img E) Hs) as Hr.
  destruct (processInstant canvas ctx img (tolerance s) (feather s)) as [calls c].
  split; [|exact Hr].
  cbn. intros img' [= <-]. exact (proj1 Hs img E).
Qed.

Lemma step_known (e : event) (s : State) :
  (forall img, e = Loaded img -> known img) ->
  from_known known s -> from_known known (fst (step canvas ctx e s)).
Proof.
  intros He Hs. destruct e as [img|t|f]; cbn [step].
  - unfold img_onload.
    pose proof (report_known img (tolerance mounted) (feather mounted) s
                  (He img eq_refl) Hs) as Hr.
    destruct (processInstant canvas ctx img (tolerance mounted) (feather mounted))
      as [calls c].
    split; [|exact Hr].
    cbn. intros img' [= <-]. now apply He.
  - unfold setTolerance. destruct (Qeq_bool t (tolerance s)); [exact Hs|].
    apply adjust_known. exact Hs.
  - unfold setFeather. destruct (Qeq_bool f (feather s)); [exact Hs|].
    apply adjust_known. exact Hs.
Qed.

Lemma run_known (evs : list event) (s : State) :
  (forall img, In (Loaded img) evs -> known img) ->
  from_known known s -> from_known known (fst (run canvas ctx evs s)).
Proof.
  revert s. induction evs as [|e evs IH]; intros s He Hs; cbn [run]; [exact Hs|].
  assert (Hs' : from_known known (fst (step canvas ctx e s))).
  { apply step_known; [|exact Hs]. intros img ->. apply He. now left. }
  destruct (step canvas ctx e s) as [s' [|]]; cbn [fst] in *; [|exact Hs'].
  apply IH; [|exact Hs']. intros img Hin. apply He. now right.
Qed.

End Known.

(** Whatever happens to a mounted component, the image it keeps is one
    that was loaded, as loaded, and every result it reports is the pass
    over such an image: a pass never runs on the output of a pass, and
    [onError] is never called. *)
Theorem passes_run_on_loaded_images (canvas ctx : bool) (evs : list event) :
  let s := fst (run canvas ctx evs mounted) in
  (forall img, originalImageRef s = Some img -> In (Loaded img) evs) /\
  Forall (fun r => exists img t f, In (Loaded img) evs /\ r = pass img t f)
    (reported s).
Proof.
  apply (run_known canvas ctx (fun img => In (Loaded img) evs)).
  - trivial.
  - split; [discriminate | apply Forall_nil; trivial].
Qed.

(** *** What is on show *)

Lemma processInstant_no_size (img : ImageData) (tol fth : Q) :
  width img = 0 \/ height img = 0 ->
  processInstant true true img tol fth = ([], Throws_IndexSizeError).
Proof.
  intros Hz. unfold processInstant. cbn [negb].
  destruct (Nat.eqb_spec (width img) 0) as [E|Hw]; [reflexivity|].
  destruct (Nat.eqb_spec (height img) 0) as [E|Hh]; [reflexivity|].
  exfalso. lia.
Qed.

Lemma sized_or_not (img : ImageData) :
  (0 < width img /\ 0 < height img) \/ (width img = 0 \/ height img = 0).
Proof. lia. Qed.

Lemma adjust_current (s : State) :
  current_or_initial (fst (adjust true true s)).
Proof.
  unfold adjust. destruct (originalImageRef s) as [img|] eqn:E.
  - destruct (sized_or_not img) as [[Hw Hh]|Hz].
    + rewrite processInstant_pass by assumption. cbn.
      intros img' [= <-] _ _. left. unfold shown. cbn. apply last_snoc.
    + rewrite processInstant_no_size by assumption. cbn.
      intros img' [= <-] Hw Hh. exfalso. lia.
  - cbn. intros img Href. congruence.
Qed.

Lemma step_current (e : event) (s : State) :
  current_or_initial s -> current_or_initial (fst (step true true e s)).
Proof.
  intros Hs. destruct e as [img|t|f]; cbn [step].
  - unfold img_onload. destruct (sized_or_not img) as [[Hw Hh]|Hz].
    + rewrite processInstant_pass by assumption. cbn.
      intros img' [= <-] _ _. right. unfold shown. cbn. apply last_snoc.
    + rewrite processInstant_no_size by assumption. cbn.
      intros img' [= <-] Hw Hh. exfalso. lia.
  - unfold setTolerance. destruct (Qeq_bool t (tolerance s)); [exact Hs|].
    apply adjust_current.
  - unfold setFeather. destruct (Qeq_bool f (feather s)); [exact Hs|].
    apply adjust_current.
Qed.

Lemma run_current (evs : list event) (s : State) :
  current_or_initial s -> current_or_initial (fst (run true true evs s)).
Proof.
  revert s. induction evs as [|e evs IH]; intros s Hs; cbn [run]; [exact Hs|].
  pose proof (step_current e s Hs) as Hs'.
  destruct (step true true e s) as [s' [|]]; cbn [fst] in *; [|exact Hs'].
  now apply IH.
Qed.

(** At every moment, for an image kept that has a width and a height: the
    result on show is the pass over that image with the two sliders as
    they stand, or with the 30 and 2 of the first render. *)
Theorem shown_is_pass_over_image_kept (evs : list event) (img : ImageData) :
  let s := fst (run true true evs mounted) in
  originalImageRef s = Some img -> 0 < width img -> 0 < height img ->
  shown s = Some (pass img (tolerance s) (feather s))
  \/ shown s = Some (pass img 30 2).
Proof.
  intros s. apply (run_current evs mounted).
  intros img' Href. discriminate Href.
Qed.

Lemma shown_is_pass_over_image_kept_witness :
  shown (fst (run true true [Loaded (Specified.strip 255); TolerancePicked 60] mounted))
  = Some (pass (Specified.strip 255) 60 2).
Proof.
  destruct (shown_is_pass_over_image_kept
              [Loaded (Specified.strip 255); TolerancePicked 60]
              (Specified.strip 255)) as [H|H].
  - reflexivity.
  - cbn. lia.
  - cbn. lia.
  - exact H.
  - reflexivity.
Defined.

(** *** Sliders moved before the image is there *)

Lemma slider_run (canvas ctx : bool) (evs : list event) (s : State) :
  Forall is_slider evs -> originalImageRef s = None ->
  exists t f, run canvas ctx evs s = (mkState t f None (reported s), Returns).
Proof.
  revert s. induction evs as [|e evs IH]; intros s Hev Href.
  - exists (tolerance s), (feather s). cbn. destruct s; cbn in *. now subst.
  - apply Forall_cons in Hev as [He Hev]. cbn [run].
    destruct e as [img|t|f]; [destruct He| |]; cbn [step].
    + unfold setTolerance. destruct (Qeq_bool t (tolerance s)).
      * now apply IH.
      * unfold adjust. cbn. rewrite Href.
        apply (IH (mkState t (feather s) None (reported s))); trivial.
    + unfold setFeather. destruct (Qeq_bool f (feather s)).
      * now apply IH.
      * unfold adjust. cbn. rewrite Href.
        apply (IH (mkState (tolerance s) f None (reported s))); trivial.
Qed.

(** When the sliders are moved before the image has loaded, the load
    reports the pass with tolerance 30 and feather 2 all the same: the
    sliders' values play no part until one of them changes again. *)
Theorem load_ignores_sliders (evs : list event) (img : ImageData) :
  Forall is_slider evs -> 0 < width img -> 0 < height img ->
  let s0 := fst (run true true evs mounted) in
  run true true (evs ++ [Loaded img]) mounted
  = (mkState (tolerance s0) (feather s0) (Some img) [pass img 30 2], Returns).
Proof.
  intros Hev Hw Hh s0. rewrite run_app.
  destruct (slider_run true true evs mounted Hev eq_refl) as (t & f & Hrun).
  unfold s0. rewrite Hrun. cbn [fst run step tolerance feather].
  unfold img_onload. rewrite processInstant_pass by assumption. reflexivity.
Qed.

Lemma load_ignores_sliders_witness :
  exists s,
    run true true [TolerancePicked 80; FeatherPicked 5; Loaded (Specified.strip 255)]
      mounted = (s, Returns) /\
    tolerance s = 80%Q /\ feather s = 5%Q /\
    shown s = Some (pass (Specified.strip 255) 30 2).
Proof.
  pose proof (load_ignores_sliders [TolerancePicked 80; FeatherPicked 5]
                (Specified.strip 255)) as H.
  cbv zeta in H. eexists. split.
  - apply H.
    + repeat (apply Forall_cons; split; [exact I|]). apply Forall_nil. trivial.
    + cbn. lia.
    + cbn. lia.
  - repeat split.
Defined.

(** *** A slider moved once the image is there *)

(** A pick that changes a slider while an image with a width and a height
    is kept reports the pass over that image with the new value and the
    other slider as it stands, and keeps the image. *)
Theorem pick_reports_current_pass (evs : list event) (s : State)
    (img : ImageData) (v : Q) :
  run true true evs mounted = (s, Returns) ->
  originalImageRef s = Some img -> 0 < width img -> 0 < height img ->
  (Qeq_bool v (tolerance s) = false ->
   run true true (evs ++ [TolerancePicked v]) mounted
   = (mkState v (feather s) (Some img)
        (reported s ++ [pass img v (feather s)]), Returns)) /\
  (Qeq_bool v (feather s) = false ->
   run true true (evs ++ [FeatherPicked v]) mounted
   = (mkState (tolerance s) v (Some img)
        (reported s ++ [pass img (tolerance s) v]), Returns)).
Proof.
  intros Hrun Href Hw Hh. split; intros Hv; rewrite run_app, Hrun;
    cbn [run step]; unfold setTolerance, setFeather; rewrite Hv;
    unfold adjust; cbn [originalImageRef tolerance feather reported];
    rewrite Href, processInstant_pass by assumption; reflexivity.
Qed.

Lemma pick_reports_current_pass_witness :
  run true true [Loaded (Specified.strip 255); FeatherPicked 1] mounted
  = (mkState 30 1 (Some (Specified.strip 255))
       [pass (Specified.strip 255) 30 2; pass (Specified.strip 255) 30 1],
     Returns).
Proof.
  apply (pick_reports_current_pass [Loaded (Specified.strip 255)]
           (mkState 30 2 (Some (Specified.strip 255)) [pass (Specified.strip 255) 30 2])
           (Specified.strip 255) 1).
  - reflexivity.
  - reflexivity.
  - cbn. lia.
  - cbn. lia.
  - reflexivity.
Defined.

End RemoverFacts.

(** ** More on the two [App]s *)

Module JobMore.
Import Browser SpecifiedJob Views.
Local Open Scope nat_scope.

(** *** Object URLs from start to [reset] *)

Lemma never_revoked (n : nat) (l : list url) :
  (forall h, In (blob_url h) l -> h < n) ->
  List.filter (same_handle (blob_url n)) l = [].
Proof.
  induction l as [|u l IH]; intros Hl; [reflexivity|]. cbn [List.filter].
  assert (Hu : same_handle (blob_url n) u = false).
  { destruct u as [|h|png]; trivial. cbn.
    apply Nat.eqb_neq. specialize (Hl h (or_introl eq_refl)). lia. }
  rewrite Hu. apply IH. intros h Hin. apply Hl. now right.
Qed.

Lemma times_revoked_app (u : url) (st : URLStore) (l : list url) :
  times_revoked u (mkURLStore (next st) (live st) (revoked st ++ l))
  = times_revoked u st + length (List.filter (same_handle u) l).
Proof.
  unfold times_revoked. cbn [revoked].
  now rewrite List.filter_app, length_app.
Qed.

Lemma fresh_not_live (st : URLStore) (k : nat) :
  store_ok st -> next st + k ∉ live st.
Proof. intros [Hl _] Hin. apply Hl in Hin. lia. Qed.

(** A job of the Deep engine that resolves, then [reset]: the two object
    URLs made for it are each revoked once, the handles alive are those
    alive before the job, and the store stays in order.  In the [App] with
    the two modes, and in the single-engine [App] for a file it accepts. *)
Theorem resolved_job_releases_its_urls (f : File) :
  (forall s,
     store_ok (AppModes.urls s) ->
     let n := next (AppModes.urls s) in
     let s3 :=
       AppModes.reset
         (AppModes.processFileDeep_resolved
            (snd (AppModes.processFileDeep f s))
            (fst (AppModes.processFileDeep f s))) in
     live (AppModes.urls s3) = live (AppModes.urls s) /\
     times_revoked (blob_url n) (AppModes.urls s3) = 1 /\
     times_revoked (blob_url (S n)) (AppModes.urls s3) = 1 /\
     store_ok (AppModes.urls s3)) /\
  (forall s s1 p,
     store_ok (AppSingle.urls s) ->
     AppSingle.processFile f s = (s1, Some p) ->
     let n := next (AppSingle.urls s) in
     let s3 := AppSingle.reset (AppSingle.processFile_resolved p s1) in
     live (AppSingle.urls s3) = live (AppSingle.urls s) /\
     times_revoked (blob_url n) (AppSingle.urls s3) = 1 /\
     times_revoked (blob_url (S n)) (AppSingle.urls s3) = 1 /\
     store_ok (AppSingle.urls s3)).
Proof.
  assert (Hcore : forall st : URLStore,
    store_ok st ->
    let n := next st in
    let st3 :=
      revokeObjectURL (blob_url (S n))
        (revokeObjectURL (blob_url n)
           (snd (createObjectURL (snd (createObjectURL st))))) in
    live st3 = live st /\
    times_revoked (blob_url n) st3 = 1 /\
    times_revoked (blob_url (S n)) st3 = 1 /\
    store_ok st3).
  { intros st Hok n st3.
    pose proof (fresh_not_live st 0 Hok) as H0. rewrite Nat.add_0_r in H0.
    pose proof (fresh_not_live st 1 Hok) as H1. rewrite Nat.add_1_r in H1.
    destruct Hok as [Hl Hr].
    assert (Hn : List.filter (same_handle (blob_url n)) (revoked st) = [])
      by now apply never_revoked.
    assert (HSn : List.filter (same_handle (blob_url (S n))) (revoked st) = []).
    { apply never_revoked. intros h Hin. apply Hr in Hin. fold n in Hin. lia. }
    subst st3. unfold revokeObjectURL, createObjectURL, times_revoked.
    cbn [fst snd next live revoked]. fold n.
    rewrite <- !app_assoc, !List.filter_app, Hn, HSn. cbn [List.filter same_handle app].
    rewrite !Nat.eqb_refl.
    replace (n =? S n) with false by (symmetry; apply Nat.eqb_neq; lia).
    replace (S n =? n) with false by (symmetry; apply Nat.eqb_neq; lia).
    split; [set_solver|]. split; [reflexivity|]. split; [reflexivity|].
    split; cbn [next live revoked].
    - intros h Hh. assert (Hlive : h ∈ live st) by set_solver.
      apply Hl in Hlive. fold n in Hlive. lia.
    - intros h Hin. apply in_app_or in Hin as [Hin|Hin].
      + apply Hr in Hin. fold n in Hin. lia.
      + cbn in Hin. destruct Hin as [[= <-]|[[= <-]|[]]]; lia. }
  split.
  - intros s Hok. exact (Hcore (AppModes.urls s) Hok).
  - intros s s1 p Hok Hrun. unfold AppSingle.processFile in Hrun.
    destruct (negb (String.prefix "image/" (type f))); [discriminate|].
    destruct (15 * 1024 * 1024 <? size f)%Z; [discriminate|].
    cbn in Hrun. injection Hrun as <- <-.
    exact (Hcore (AppSingle.urls s) Hok).
Qed.

Lemma resolved_job_releases_its_urls_witness :
  let s3 :=
    AppSingle.reset
      (AppSingle.processFile_resolved (mkPending photo (blob_url 0))
         (fst (AppSingle.processFile photo AppSingle.initial))) in
  live (AppSingle.urls s3) = ∅ /\
  times_revoked (blob_url 0) (AppSingle.urls s3) = 1 /\
  times_revoked (blob_url 1) (AppSingle.urls s3) = 1.
Proof.
  destruct (resolved_job_releases_its_urls photo) as [_ H].
  destruct (H AppSingle.initial _ _ (conj (fun h Hh => False_ind _ (not_elem_of_empty h Hh))
                                          (fun h (Hh : In _ []) => False_ind _ Hh))
              eq_refl) as (Hl & H0 & H1 & _).
  repeat split; assumption.
Defined.

(** In express mode: a file submitted, a result of the engine taken in or
    not, then [reset].  The object URL of the source is revoked once and
    the handles alive are those alive before; the data URL of the result
    is handed to [revokeObjectURL] too, the empty URL of a job without a
    result is not. *)
Theorem express_job_releases_its_url (f : File) (s : AppModes.App)
    (png : Express.ImageData) :
  store_ok (AppModes.urls s) ->
  AppModes.removalMode s = AppModes.express ->
  let n := next (AppModes.urls s) in
  let s1 := fst (AppModes.handleFileChange (Some f) s) in
  let early := AppModes.reset s1 in
  let late := AppModes.reset (AppModes.onResult png s1) in
  revoked (AppModes.urls early) = revoked (AppModes.urls s) ++ [blob_url n] /\
  revoked (AppModes.urls late)
  = revoked (AppModes.urls s) ++ [blob_url n; data_url png] /\
  live (AppModes.urls early) = live (AppModes.urls s) /\
  live (AppModes.urls late) = live (AppModes.urls s) /\
  times_revoked (blob_url n) (AppModes.urls late) = 1.
Proof.
  intros Hok Hmode n s1 early late.
  pose proof (fresh_not_live _ 0 Hok) as H0. rewrite Nat.add_0_r in H0. fold n in H0.
  subst early late s1. cbn. rewrite Hmode. cbn. fold n.
  split; [reflexivity|]. split; [now rewrite <- app_assoc|].
  split; [set_solver|]. split; [set_solver|].
  unfold times_revoked. cbn [revoked].
  rewrite <- app_assoc, List.filter_app.
  rewrite never_revoked by (destruct Hok as [_ Hr]; exact Hr).
  cbn. now rewrite Nat.eqb_refl.
Qed.

Lemma express_job_releases_its_url_witness :
  let s1 := fst (AppModes.handleFileChange (Some photo) (AppModes.initial AppModes.express)) in
  revoked (AppModes.urls (AppModes.reset s1)) = [blob_url 0] /\
  live (AppModes.urls (AppModes.reset s1)) = ∅.
Proof.
  destruct (express_job_releases_its_url photo (AppModes.initial AppModes.express)
              Specified.empty_image) as (Hr & _ & Hl & _).
  - split; [intros h Hh; now apply not_elem_of_empty in Hh | intros h []].
  - reflexivity.
  - split; [exact Hr | exact Hl].
Defined.

(** *** [reset] *)

(** [reset] twice is [reset] once: the second one finds no result and
    revokes nothing, in either [App]. *)
Lemma reset_twice (s : AppModes.App) (s' : AppSingle.App) :
  AppModes.reset (AppModes.reset s) = AppModes.reset s /\
  AppSingle.reset (AppSingle.reset s') = AppSingle.reset s'.
Proof. split; reflexivity. Qed.

(** Only [reset] revokes: taking a file, starting the engine, its progress,
    its end either way and a result of the Express engine leave the
    revocations as they are and no handle less alive, in either [App]. *)
Theorem only_reset_revokes (f : option File) (p : Pending)
    (key : string) (current total : Q) (png : Express.ImageData) :
  (forall s,
     keeps_urls (AppModes.urls s) (AppModes.urls (fst (AppModes.handleFileChange f s))) /\
     keeps_urls (AppModes.urls s) (AppModes.urls (AppModes.on_progress key current total s)) /\
     keeps_urls (AppModes.urls s) (AppModes.urls (AppModes.processFileDeep_resolved p s)) /\
     keeps_urls (AppModes.urls s) (AppModes.urls (AppModes.processFileDeep_rejected p s)) /\
     keeps_urls (AppModes.urls s) (AppModes.urls (AppModes.onResult png s))) /\
  (forall s g,
     keeps_urls (AppSingle.urls s) (AppSingle.urls (fst (AppSingle.processFile g s))) /\
     keeps_urls (AppSingle.urls s) (AppSingle.urls (AppSingle.on_progress key current total s)) /\
     keeps_urls (AppSingle.urls s) (AppSingle.urls (AppSingle.processFile_resolved p s)) /\
     keeps_urls (AppSingle.urls s) (AppSingle.urls (AppSingle.processFile_rejected p s))).
Proof.
  split; [intros s | intros s g]; repeat apply conj;
    unfold AppModes.handleFileChange, AppModes.processFileDeep, AppModes.onResult,
      AppModes.processFileDeep_resolved, AppSingle.processFile,
      AppSingle.processFile_resolved, createObjectURL;
    cbn;
    repeat match goal with
           | |- context [match ?x with _ => _ end] => destruct x
           | |- context [if ?x then _ else _] => destruct x
           end;
    cbn; first [reflexivity | set_solver].
Qed.

(** *** What is on the page after a failure *)

(** In the [App] with the two modes, a file taken in deep mode while there
    is no result, and whose engine run fails, leaves the page without any
    of its three panels: the drop zone stays hidden behind the selected file, so
    the error that was set is not shown, and the buttons of [reset], in the
    result panel, are not there either. *)
Theorem deep_failure_leaves_no_panel (f : File) (s : AppModes.App) :
  AppModes.removalMode s = AppModes.deep -> AppModes.result s = None ->
  exists s1 p,
    AppModes.handleFileChange (Some f) s = (s1, Some p) /\
    progress_panel s1 = true /\
    let s2 := AppModes.processFileDeep_rejected p s1 in
    AppModes.error s2
    = Some "Deep AI failed. The model may be too heavy for your browser."%string /\
    drop_zone s2 = false /\ progress_panel s2 = false /\
    result_panel s2 = false /\ error_line s2 = false.
Proof.
  intros Hmode Hres. cbn. rewrite Hmode. cbn.
  do 2 eexists. split; [reflexivity|]. split; [reflexivity|].
  unfold error_line, drop_zone, progress_panel, result_panel. cbn.
  rewrite Hres. repeat split.
Qed.

Lemma deep_failure_leaves_no_panel_witness :
  exists s1 p,
    AppModes.handleFileChange (Some photo) (AppModes.initial AppModes.deep)
    = (s1, Some p) /\
    drop_zone (AppModes.processFileDeep_rejected p s1) = false /\
    result_panel (AppModes.processFileDeep_rejected p s1) = false.
Proof.
  destruct (deep_failure_leaves_no_panel photo (AppModes.initial AppModes.deep))
    as (s1 & p & Hrun & _ & _ & Hd & _ & Hr & _); try reflexivity.
  exists s1, p. repeat split; assumption.
Defined.

(** In the single-engine [App] the same failure, for a file it accepts,
    brings the drop zone back with the error in it. *)
Theorem single_failure_shows_error (f : File) (s : AppSingle.App) (s1 : AppSingle.App)
    (p : Pending) :
  single_drop_zone s = true ->
  AppSingle.processFile f s = (s1, Some p) ->
  single_progress_panel s1 = true /\ single_drop_zone s1 = false /\
  let s2 := AppSingle.processFile_rejected p s1 in
  single_drop_zone s2 = true /\ single_error_line s2 = true /\
  single_progress_panel s2 = false /\ single_result_panel s2 = false.
Proof.
  intros Hdrop Hrun. unfold AppSingle.processFile in Hrun.
  destruct (negb (String.prefix "image/" (type f))); [discriminate|].
  destruct (15 * 1024 * 1024 <? size f)%Z; [discriminate|].
  cbn in Hrun. injection Hrun as <- <-.
  unfold single_drop_zone in Hdrop.
  apply andb_true_iff in Hdrop as [Hres _].
  unfold single_error_line, single_drop_zone, single_progress_panel,
    single_result_panel. cbn.
  destruct (AppSingle.result s); [discriminate Hres|]. repeat split.
Qed.

Lemma single_failure_shows_error_witness :
  single_error_line
    (AppSingle.processFile_rejected (mkPending photo (blob_url 0))
       (fst (AppSingle.processFile photo AppSingle.initial))) = true.
Proof.
  destruct (single_failure_shows_error photo AppSingle.initial _ _ eq_refl eq_refl)
    as (_ & _ & _ & He & _).
  exact He.
Defined.

(** *** Which files the single-engine [App] takes *)

(** [processFile] starts the engine exactly for a file whose type starts
    with [image/] and whose size is at most 15 MB; it then is processing,
    has called the engine once more, with that file, and holds one object
    URL more.  Any other file changes the error and nothing else. *)
Theorem processFile_starts_iff (f : File) (s : AppSingle.App) :
  let accepted :=
    String.prefix "image/" (type f) = true /\ (size f <= 15 * 1024 * 1024)%Z in
  let s1 := fst (AppSingle.processFile f s) in
  (accepted <-> exists p, snd (AppSingle.processFile f s) = Some p) /\
  (accepted ->
   AppSingle.isProcessing s1 = true /\ AppSingle.error s1 = None /\
   AppSingle.progress s1 = 0%Z /\
   AppSingle.engine_calls s1 = AppSingle.engine_calls s ++ [f] /\
   live (AppSingle.urls s1) = {[next (AppSingle.urls s)]} ∪ live (AppSingle.urls s) /\
   snd (AppSingle.processFile f s)
   = Some (mkPending f (blob_url (next (AppSingle.urls s))))) /\
  (~ accepted ->
   exists e, s1 = AppSingle.setError (Some e) s).
Proof.
  cbv zeta. unfold AppSingle.processFile.
  destruct (String.prefix "image/" (type f)) eqn:Et; cbn [negb].
  - destruct (Z.ltb_spec (15 * 1024 * 1024) (size f)) as [Hbig|Hok]; cbn.
    + split; [|split].
      * split; [intros [_ H]; lia | intros [p Hp]; discriminate Hp].
      * intros [_ H]. lia.
      * intros _. eexists. reflexivity.
    + split; [|split].
      * split; [intros _; eexists; reflexivity | intros _; split; [reflexivity|lia]].
      * intros _. repeat split.
      * intros Hn. exfalso. apply Hn. split; [reflexivity|lia].
  - cbn. split; [|split].
    + split; [intros [H _]; discriminate H | intros [p Hp]; discriminate Hp].
    + intros [H _]. discriminate H.
    + intros _. eexists. reflexivity.
Qed.

(** *** From the file to the download, in express mode *)

(** A file taken in express mode mounts [BackgroundRemover]; until its
    image has loaded there is nothing to download, and once it has, what
    [downloadResult] offers is the pass over that image with tolerance 30
    and feather 2, under the name made from the file's. *)
Theorem express_download_is_first_pass (f : File) (s : AppModes.App)
    (img : Express.ImageData) :
  AppModes.removalMode s = AppModes.express ->
  AppModes.isProcessing s = false ->
  0 < Express.width img -> 0 < Express.height img ->
  let s1 := fst (AppModes.handleFileChange (Some f) s) in
  let r := fst (Remover.run true true [Remover.Loaded img] Remover.mounted) in
  let s2 := fold_left (fun a c => on_callback c a) (Remover.reported r) s1 in
  remover_mounted s1 = true /\
  downloadResult s1 = None /\
  downloadResult s2
  = Some (data_url
            (Express.mkImageData (Express.width img) (Express.height img)
               (Express.threshold (Express.width img) (Express.height img) 30 2
                  (Express.data img))),
          String.append (split_dot_0 (name f)) "_transparent.png").
Proof.
  intros Hmode Hproc Hw Hh. cbn [Remover.run Remover.step].
  unfold Remover.img_onload.
  rewrite RemoverFacts.processInstant_pass by assumption.
  cbn. rewrite Hmode. cbn.
  unfold remover_mounted, result_panel, downloadResult. cbn.
  rewrite ?Hmode, ?Hproc. repeat split.
Qed.

Lemma express_download_is_first_pass_witness :
  downloadResult
    (fold_left (fun a c => on_callback c a)
       (Remover.reported
          (fst (Remover.run true true [Remover.Loaded Specified.grey2x2] Remover.mounted)))
       (fst (AppModes.handleFileChange (Some photo) (AppModes.initial AppModes.express))))
  = Some (data_url
            (Express.mkImageData 2 2
               [200; 200; 200; 0; 200; 200; 200; 0;
                200; 200; 200; 0; 200; 200; 200; 0]%Z),
          "photo_transparent.png"%string).
Proof.
  destruct (express_download_is_first_pass photo (AppModes.initial AppModes.express)
              Specified.grey2x2) as (_ & _ & H).
  - reflexivity.
  - reflexivity.
  - cbn. lia.
  - cbn. lia.
  - rewrite H. reflexivity.
Defined.

(** *** Progress *)







(** *** The name of the download *)

Lemma append_dots (s t : string) :
  count_dots (String.append s t) = count_dots s + count_dots t.
Proof.
  induction s as [|c s IH]; simpl; [reflexivity|].
  rewrite IH. lia.
Qed.

(** [name.split('.')[0]] is the longest beginning of the name without a
    dot: the name goes on with a dot or ends there.  So the suggested name
    has one dot, the one of [.png]. *)
Theorem suggested_name_has_one_dot (f : File) :
  (exists rest,
     name f = String.append (split_dot_0 (name f)) rest /\
     (rest = EmptyString \/ exists r, rest = String "."%char r)) /\
  count_dots (split_dot_0 (name f)) = 0 /\
  count_dots (transparent_name f) = 1.
Proof.
  assert (H0 : forall s, count_dots (split_dot_0 s) = 0).
  { induction s as [|c s IH]; cbn [split_dot_0]; [reflexivity|].
    destruct (Ascii.eqb c ".") eqn:E; [reflexivity|].
    cbn [count_dots]. now rewrite E, IH. }
  split; [|split].
  - generalize (name f) as s.
    induction s as [|c s (rest & IH & Hrest)]; cbn [split_dot_0].
    + exists EmptyString. split; [reflexivity | now left].
    + destruct (Ascii.eqb c ".") eqn:E.
      * apply Ascii.eqb_eq in E as ->. exists (String "." s).
        split; [reflexivity | right; now exists s].
      * exists rest. split; [|exact Hrest].
        change (String c s = String c (String.append (split_dot_0 s) rest)).
        now f_equal.
  - apply H0.
  - unfold transparent_name. now rewrite append_dots, H0.
Qed.

End JobMore.
